(** * NumberTag: number normalisation and positional tagging

    A shallow embedding of [src/data/util/classes/NumberTag.py].

    Python [str] values are modelled as lists of characters ([list ascii]);
    a character is a code point in the range 0..255 and the character
    classes below are the ones CPython uses on that range:
    [str.split()] and [float()] use [Py_UNICODE_ISSPACE], the pattern of
    [_normalize_numbers] is a [str] pattern, so [\d] is the Unicode decimal
    digit class and [\b] is defined by the Unicode word class
    (alphanumeric or underscore). *)

From Stdlib Require Import Ascii String Bool Arith NArith Lia List.
Import ListNotations.

(** ** Python strings *)

Module PyStr.

Definition str := list ascii.

(** String literals of the source, as character lists. *)
Definition s (x : string) : str := list_ascii_of_string x.

Definition code (c : ascii) : N := N_of_ascii c.

Definition in_range (lo hi : N) (c : ascii) : bool :=
  ((lo <=? code c) && (code c <=? hi))%N.

Definition chr_eqb (a b : ascii) : bool := Ascii.eqb a b.

Definition str_eqb (a b : str) : bool :=
  if list_eq_dec ascii_dec a b then true else false.

(** [Py_UNICODE_ISSPACE]: the whitespace of [str.split()]. *)
Definition isspace (c : ascii) : bool :=
  in_range 9 13 c || in_range 28 32 c || (code c =? 133)%N || (code c =? 160)%N.

(** [Py_ISSPACE]: the C-locale whitespace [float()] strips. *)
Definition c_isspace (c : ascii) : bool :=
  in_range 9 13 c || (code c =? 32)%N.

(** [\d] of a [str] pattern: [Py_UNICODE_ISDECIMAL]. *)
Definition isdecimal (c : ascii) : bool := in_range 48 57 c.

(** [Py_UNICODE_ISALNUM]: alphabetic, decimal, digit or numeric. *)
Definition isalnum (c : ascii) : bool :=
  in_range 48 57 c || in_range 65 90 c || in_range 97 122 c
  || (code c =? 170)%N || (code c =? 178)%N || (code c =? 179)%N
  || (code c =? 181)%N || (code c =? 185)%N || (code c =? 186)%N
  || in_range 188 190 c || in_range 192 214 c || in_range 216 246 c
  || in_range 248 255 c.

(** [\w] of a [str] pattern. *)
Definition isword (c : ascii) : bool := isalnum c || chr_eqb c "_".

(** *** [str.split()] with no argument

    The scan of [split_whitespace]: [cur] is the word being read (empty
    while whitespace is skipped); a word is emitted when whitespace or the
    end of the string follows it. *)
Definition emit (cur : str) (rest : list str) : list str :=
  match cur with
  | [] => rest
  | _ :: _ => cur :: rest
  end.

Fixpoint split_from (cur : str) (t : str) : list str :=
  match t with
  | [] => emit cur []
  | c :: t' =>
      if isspace c then emit cur (split_from [] t')
      else split_from (cur ++ [c]) t'
  end.

Definition split (t : str) : list str := split_from [] t.

(** *** [" ".join(words)] *)
Fixpoint join (ws : list str) : str :=
  match ws with
  | [] => []
  | [w] => w
  | w :: rest => w ++ " "%char :: join rest
  end.

(** *** [float(word)]: does the conversion succeed?

    [float] raises [ValueError] exactly when the text is not of the form
    [[sign] (number [exponent] | inf | infinity | nan)] after the steps
    below.  Only success or failure matters to the caller, so the model is a
    recogniser. *)

(** [_PyUnicode_TransformDecimalAndSpaceToASCII]: code points below 127 are
    kept, other whitespace becomes a space, other decimal digits become
    ASCII digits (there is none below 256), and the first other character
    becomes [?] and ends the text. *)
Fixpoint to_ascii_decimal (t : str) : str :=
  match t with
  | [] => []
  | c :: t' =>
      if (code c <? 127)%N then c :: to_ascii_decimal t'
      else if isspace c then " "%char :: to_ascii_decimal t'
      else ["?"%char]
  end.

Fixpoint lstrip (t : str) : str :=
  match t with
  | c :: t' => if c_isspace c then lstrip t' else t
  | [] => []
  end.

Definition strip (t : str) : str := rev (lstrip (rev (lstrip t))).

(** [_Py_string_to_number_with_underscores]: an underscore is allowed only
    between two ASCII digits; [prev] is the previous character. *)
Fixpoint underscores_ok (prev : option ascii) (t : str) : bool :=
  match t with
  | [] => match prev with
          | Some p => negb (chr_eqb p "_")
          | None => true
          end
  | c :: t' =>
      (if chr_eqb c "_"
       then match prev with Some p => isdecimal p | None => false end
       else match prev with
            | Some p => negb (chr_eqb p "_") || isdecimal c
            | None => true
            end)
      && underscores_ok (Some c) t'
  end.

Definition remove_underscores (t : str) : str :=
  filter (fun c => negb (chr_eqb c "_")) t.

Fixpoint skip_digits (t : str) : str :=
  match t with
  | c :: t' => if isdecimal c then skip_digits t' else t
  | [] => []
  end.

Definition starts_with_digit (t : str) : bool :=
  match t with
  | c :: _ => isdecimal c
  | [] => false
  end.

Definition skip_sign (t : str) : str :=
  match t with
  | c :: t' => if chr_eqb c "+" || chr_eqb c "-" then t' else t
  | [] => []
  end.

Definition lower (c : ascii) : ascii :=
  if in_range 65 90 c then ascii_of_N (code c + 32) else c.

(** [_Py_parse_inf_or_nan], after the sign. *)
Definition is_inf_or_nan (t : str) : bool :=
  let l := map lower t in
  str_eqb l (s "inf") || str_eqb l (s "infinity") || str_eqb l (s "nan").

(** The optional exponent of [_Py_dg_strtod]; the whole text must be
    consumed. *)
Definition exponent_to_end (t : str) : bool :=
  match t with
  | [] => true
  | c :: t' =>
      (chr_eqb c "e" || chr_eqb c "E")
      && starts_with_digit (skip_sign t')
      && match skip_digits (skip_sign t') with [] => true | _ :: _ => false end
  end.

(** The decimal number of [_Py_dg_strtod], after the sign: digits, an
    optional point and digits, at least one digit in all. *)
Definition is_decimal_number (t : str) : bool :=
  let after_int := skip_digits t in
  match after_int with
  | c :: frac =>
      if chr_eqb c "."
      then (starts_with_digit t || starts_with_digit frac)
           && exponent_to_end (skip_digits frac)
      else starts_with_digit t && exponent_to_end after_int
  | [] => starts_with_digit t
  end.

Definition is_float (w : str) : bool :=
  let t := strip (to_ascii_decimal w) in
  match t with
  | [] => false
  | _ :: _ =>
      underscores_ok None t
      && (let u := skip_sign (remove_underscores t) in
          is_decimal_number u || is_inf_or_nan u)
  end.

End PyStr.

Import PyStr.

(** ** [_normalize_numbers]: [re.sub(r"\.(\d*?)0+\b", repl, sentence)] *)

Module Re.

(** [\b] between the previous and the next character (none at either end
    of the text): exactly one side is a word character. *)
Definition is_word_at (c : option ascii) : bool :=
  match c with
  | Some a => isword a
  | None => false
  end.

Definition at_boundary (prev next : option ascii) : bool :=
  xorb (is_word_at prev) (is_word_at next).

(** [0+\b], greedy: the longer run of zeros is tried first, and a shorter
    one only when the rest of the pattern failed after it.  Returns the text
    left after the match. *)
Fixpoint zeros_boundary (t : str) : option str :=
  match t with
  | c :: t' =>
      if chr_eqb c "0" then
        match zeros_boundary t' with
        | Some rest => Some rest
        | None => if at_boundary (Some c) (hd_error t') then Some t' else None
        end
      else None
  | [] => None
  end.

(** [(\d*?)0+\b], lazy: the group takes one more digit only when the rest
    of the pattern failed.  [group] holds the digits taken so far.  Returns
    the group and the text left after the match. *)
Fixpoint lazy_digits (group : str) (t : str) : option (str * str) :=
  match zeros_boundary t with
  | Some rest => Some (group, rest)
  | None =>
      match t with
      | c :: t' => if isdecimal c then lazy_digits (group ++ [c]) t' else None
      | [] => None
      end
  end.

(** The whole pattern, anchored at the start of [t]: [m[1]] and the text
    after the match. *)
Definition match_here (t : str) : option (str * str) :=
  match t with
  | c :: t' => if chr_eqb c "." then lazy_digits [] t' else None
  | [] => None
  end.

(** [lambda m: f".{m[1]}" if len(m[1]) else ""] *)
Definition repl (group : str) : str :=
  match group with
  | [] => []
  | _ :: _ => "."%char :: group
  end.

(** [re.sub]: the leftmost match is replaced and the scan goes on after it;
    a character where no match starts is copied.  A match is never empty,
    so the text left shrinks at every step and [fuel = length t] is
    enough. *)
Fixpoint sub_fuel (fuel : nat) (t : str) : str :=
  match fuel with
  | 0 => t
  | S fuel' =>
      match t with
      | [] => []
      | c :: t' =>
          match match_here t with
          | Some (group, rest) => repl group ++ sub_fuel fuel' rest
          | None => c :: sub_fuel fuel' t'
          end
      end
  end.

End Re.

Definition _normalize_numbers (sentence : str) : str :=
  Re.sub_fuel (length sentence) sentence.


(** ** Errors, dictionaries and the [enumerate] loops *)

(** The exceptions that can leave [NumberTag.__init__]: indexing [_TAGS]
    past its end.  ([ValueError] from [float] is caught inside the loop.) *)
Inductive exn : Type := IndexError.

Inductive result (E A : Type) : Type :=
| Ok (a : A)
| Raise (e : E).

Arguments Ok {E A} a.
Arguments Raise {E A} e.

(** A loop that raises nothing has the empty type of exceptions. *)
Definition run_pure {A : Type} (r : result Empty_set A) : A :=
  match r with
  | Ok a => a
  | Raise e => match e with end
  end.

(** A Python [dict] with [str] keys and values: an association list in
    insertion order, one entry for each key. *)
Module Dict.

Definition dict := list (str * str).

(** [d[k]], or [None] when [k not in d]. *)
Fixpoint get (d : dict) (k : str) : option str :=
  match d with
  | [] => None
  | (k', v) :: d' => if str_eqb k' k then Some v else get d' k
  end.

(** [d[k] = v]: a present key keeps its place, a new key goes last. *)
Fixpoint set (d : dict) (k v : str) : dict :=
  match d with
  | [] => [(k, v)]
  | (k', v') :: d' =>
      if str_eqb k' k then (k', v) :: d' else (k', v') :: set d' k v
  end.

(** [del d[k]] *)
Fixpoint del (d : dict) (k : str) : dict :=
  match d with
  | [] => []
  | (k', v) :: d' => if str_eqb k' k then d' else (k', v) :: del d' k
  end.

Definition keys (d : dict) : list str := map fst d.
Definition values (d : dict) : list str := map snd d.

End Dict.

(** [l[i] = x] at an index that was just read. *)
Fixpoint list_set (l : list str) (i : nat) (x : str) : list str :=
  match l, i with
  | [], _ => []
  | _ :: t, 0 => x :: t
  | h :: t, S i' => h :: list_set t i' x
  end.

(** [for i, word in enumerate(l): ...] where the body reads [word], updates
    the loop's other state and may assign [l[i]].  The iterator reads the
    list as it is when index [i] is reached; [n] bounds the number of
    iterations left.  [body word st] gives the word to assign (if any) and
    the new state, or raises. *)
Section Enumerate.

Variables E St : Type.
Variable body : str -> St -> result E (option str * St).

Fixpoint for_enumerate (n i : nat) (l : list str) (st : St)
  : result E (list str * St) :=
  match n with
  | 0 => Ok (l, st)
  | S n' =>
      match nth_error l i with
      | None => Ok (l, st)
      | Some word =>
          match body word st with
          | Raise e => Raise e
          | Ok (None, st') => for_enumerate n' (S i) l st'
          | Ok (Some x, st') => for_enumerate n' (S i) (list_set l i x) st'
          end
      end
  end.

End Enumerate.

Arguments for_enumerate {E St} body n i l st.

(** ** The class [NumberTag] *)

Definition _TAGS : list str :=
  [s "x"; s "y"; s "z"; s "j"; s "q"; s "v"; s "w"; s "r"].

Module NumberTag.

Import Dict.

Record t : Type := {
  original_sentence : str;
  original_equation : str;
  tagged_sentence : str;
  tagged_equation : str;
  lookup_table : dict
}.

(** Body of the first loop of [__map_numbers]: a word [float] rejects is
    skipped; any other takes the tag at index [len(lookup_dict)]. *)
Definition tag_word (word : str) (lookup_dict : dict)
  : result exn (option str * dict) :=
  if is_float word then
    match nth_error _TAGS (length lookup_dict) with
    | None => Raise IndexError
    | Some sym =>
        let key := s "<" ++ sym ++ s ">" in
        Ok (Some key, set lookup_dict key word)
    end
  else Ok (None, lookup_dict).

(** [{ v: k for k, v in lookup_dict.items() }] *)
Definition invert (lookup_dict : dict) : dict :=
  fold_left (fun acc kv => set acc (snd kv) (fst kv)) lookup_dict [].

(** Body of the second loop of [__map_numbers]. *)
Definition adjust_word (word : str) (adjust_dict : dict)
  : result Empty_set (option str * dict) :=
  match get adjust_dict word with
  | Some tag => Ok (Some tag, del adjust_dict word)
  | None => Ok (None, adjust_dict)
  end.

Definition __map_numbers (sentence equation : str)
  : result exn (str * str * dict) :=
  let sentence_list := split sentence in
  let equation_list := split equation in
  match for_enumerate tag_word (length sentence_list) 0 sentence_list [] with
  | Raise e => Raise e
  | Ok (sentence_list', lookup_dict) =>
      let adjust_dict := invert lookup_dict in
      let equation_list' :=
        fst (run_pure (for_enumerate adjust_word (length equation_list) 0
                         equation_list adjust_dict)) in
      Ok (join sentence_list', join equation_list', lookup_dict)
  end.

Definition __init__ (sentence equation : str) : result exn t :=
  let original_sentence := _normalize_numbers sentence in
  let original_equation := _normalize_numbers equation in
  match __map_numbers original_sentence original_equation with
  | Raise e => Raise e
  | Ok (tagged_sentence, tagged_equation, lookup_table) =>
      Ok {| original_sentence := original_sentence;
            original_equation := original_equation;
            tagged_sentence := tagged_sentence;
            tagged_equation := tagged_equation;
            lookup_table := lookup_table |}
  end.

Definition get_originals (self : t) : str * str :=
  (original_sentence self, original_equation self).

Definition get_masked (self : t) : str * str :=
  (tagged_sentence self, tagged_equation self).

(** Body of the loop of [unmask_sentence]; the table is only read. *)
Definition unmask_word (lookup : dict) (word : str) (st : unit)
  : result Empty_set (option str * unit) :=
  match get lookup word with
  | Some v => Ok (Some v, tt)
  | None => Ok (None, tt)
  end.

Definition unmask_sentence (self : t) (sentence : str) : str :=
  let words := split sentence in
  join (fst (run_pure (for_enumerate (unmask_word (lookup_table self))
                         (length words) 0 words tt))).

End NumberTag.

(** ** Notions used in the statements *)

(** A word as [split] produces them: not empty, no whitespace in it. *)
Definition is_word_of_split (w : str) : Prop :=
  w <> [] /\ Forall (fun c => isspace c = false) w.

(** The loop of [for_enumerate] as a left-to-right pass over the words that
    are still to be visited. *)
Section Pass.

Variables E St : Type.
Variable body : str -> St -> result E (option str * St).

Fixpoint pass (l : list str) (st : St) : result E (list str * St) :=
  match l with
  | [] => Ok ([], st)
  | w :: r =>
      match body w st with
      | Raise e => Raise e
      | Ok (x, st') =>
          match pass r st' with
          | Raise e => Raise e
          | Ok (r', st'') =>
              Ok (match x with Some y => y | None => w end :: r', st'')
          end
      end
  end.

End Pass.

Arguments pass {E St} body l st.

(** The tag built from the [i]-th symbol of [_TAGS]. *)
Definition tag (i : nat) : str := s "<" ++ nth i _TAGS [] ++ s ">".

(** The words of a text that [float] accepts, in order, one entry for each
    occurrence. *)
Definition numeric_words (text : str) : list str :=
  filter is_float (split text).

(** The words of a sentence with the numeric ones replaced by the tags
    [k], [k+1], ... in order. *)
Fixpoint tagged_from (k : nat) (words : list str) : list str :=
  match words with
  | [] => []
  | w :: r =>
      if is_float w then tag k :: tagged_from (S k) r
      else w :: tagged_from k r
  end.

(** The table that pairs the tags [k], [k+1], ... with the given words. *)
Definition table_from (k : nat) (nums : list str) : Dict.dict :=
  combine (map tag (seq k (length nums))) nums.

(** The equation words after the second loop of [__map_numbers], started
    with the reverse map [adjust_dict]. *)
Definition adjusted (adjust_dict : Dict.dict) (equation_list : list str)
  : list str :=
  fst (run_pure (pass NumberTag.adjust_word equation_list adjust_dict)).

(** What the loop of [unmask_sentence] leaves at the place of one word. *)
Definition unmask_one (lookup : Dict.dict) (w : str) : str :=
  match Dict.get lookup w with
  | Some v => v
  | None => w
  end.

(** One step of the comprehension of [NumberTag.invert]. *)
Definition invert_step (acc : Dict.dict) (kv : str * str) : Dict.dict :=
  Dict.set acc (snd kv) (fst kv).

(** The reverse map after the second loop has visited the word [w]. *)
Definition after_word (ad : Dict.dict) (w : str) : Dict.dict :=
  match Dict.get ad w with
  | Some _ => Dict.del ad w
  | None => ad
  end.

(** *** Notions about the pattern of [_normalize_numbers] *)

(** The digits a text starts with ([skip_digits] is what follows them). *)
Fixpoint take_digits (t : str) : str :=
  match t with
  | c :: t' => if isdecimal c then c :: take_digits t' else []
  | [] => []
  end.

Definition starts_with_word (t : str) : bool := Re.is_word_at (hd_error t).

(** [0+\b] on a run of digits [ds] that a non-digit (a word character when
    [b]) or the end of the text follows: all of [ds] must be zeros, and at
    least one. *)
Definition zeros_ok (ds : str) (b : bool) : bool :=
  match ds with
  | [] => false
  | _ :: _ => forallb (fun c => chr_eqb c "0") ds && negb b
  end.

(** [(\d*?)0+\b] on such a run of digits: the group. *)
Fixpoint lazy_spec (group ds : str) (b : bool) : option str :=
  if zeros_ok ds b then Some group
  else match ds with
       | d :: ds' => lazy_spec (group ++ [d]) ds' b
       | [] => None
       end.

(** No match of the pattern starts anywhere in the text. *)
Fixpoint no_match (t : str) : Prop :=
  match t with
  | [] => True
  | _ :: t' => Re.match_here t = None /\ no_match t'
  end.

(** *** Counting and concrete inputs *)

Definition str_dec : forall a b : str, {a = b} + {a <> b} :=
  list_eq_dec ascii_dec.

(** How many times a word occurs in a list of words. *)
Definition occurrences (w : str) (words : list str) : nat :=
  count_occ str_dec words w.

(** The instance of the class doctest. *)
Definition doctest_sentence : str := s "What is 123.0 added to 1.5 ?".
Definition doctest_equation : str := s "x = 123.0 + 1.5".

Definition doctest_instance : NumberTag.t :=
  {| NumberTag.original_sentence := s "What is 123 added to 1.5 ?";
     NumberTag.original_equation := s "x = 123 + 1.5";
     NumberTag.tagged_sentence := s "What is <x> added to <y> ?";
     NumberTag.tagged_equation := s "x = <x> + <y>";
     NumberTag.lookup_table := [(s "<x>", s "123"); (s "<y>", s "1.5")] |}.

(** A sentence that repeats one number, and the instance it gives. *)
Definition repeat_sentence : str := s "add 2 to 2 and 3".
Definition repeat_equation : str := s "x = 2 + 2 + 3".

Definition repeat_instance : NumberTag.t :=
  {| NumberTag.original_sentence := s "add 2 to 2 and 3";
     NumberTag.original_equation := s "x = 2 + 2 + 3";
     NumberTag.tagged_sentence := s "add <x> to <y> and <z>";
     NumberTag.tagged_equation := s "x = <y> + 2 + <z>";
     NumberTag.lookup_table :=
       [(s "<x>", s "2"); (s "<y>", s "2"); (s "<z>", s "3")] |}.

(** Nine occurrences of one number. *)
Definition nine_ones : str := s "1 1 1 1 1 1 1 1 1".

(** ** [NumberTag.__repr__]

    [repr] of a [str] and of a [dict] as CPython writes them, for code
    points 0..255: the text stands between single quotes, or between double
    quotes when it holds a single quote and no double quote; the quote in
    use and the backslash are escaped, tab, newline and carriage return are
    written [\t], [\n], [\r], and any other character that is not printable
    is written [\xhh]. *)

Module Repr.

Import Dict.

Definition backslash : ascii := ascii_of_N 92.
Definition squote : ascii := ascii_of_N 39.
Definition dquote : ascii := ascii_of_N 34.

(** [Py_UNICODE_ISPRINTABLE] *)
Definition isprintable (c : ascii) : bool :=
  in_range 32 126 c || in_range 161 172 c || in_range 174 255 c.

Definition hexdigit (n : N) : ascii :=
  nth (N.to_nat n) (s "0123456789abcdef") "0"%char.

Definition hex_escape (c : ascii) : str :=
  [backslash; "x"%char; hexdigit (code c / 16); hexdigit (code c mod 16)].

Definition escape (quote c : ascii) : str :=
  if chr_eqb c quote || chr_eqb c backslash then [backslash; c]
  else if (code c =? 9)%N then [backslash; "t"%char]
  else if (code c =? 10)%N then [backslash; "n"%char]
  else if (code c =? 13)%N then [backslash; "r"%char]
  else if (code c <? 32)%N || (code c =? 127)%N then hex_escape c
  else if (code c <? 127)%N then [c]
  else if isprintable c then [c]
  else hex_escape c.

Definition quote_for (t : str) : ascii :=
  if existsb (chr_eqb squote) t && negb (existsb (chr_eqb dquote) t)
  then dquote else squote.

Definition repr_str (t : str) : str :=
  quote_for t :: flat_map (escape (quote_for t)) t ++ [quote_for t].

(** [sep.join(items)] *)
Fixpoint join_with (sep : str) (items : list str) : str :=
  match items with
  | [] => []
  | [x] => x
  | x :: rest => x ++ sep ++ join_with sep rest
  end.

Definition repr_item (kv : str * str) : str :=
  repr_str (fst kv) ++ s ": " ++ repr_str (snd kv).

Definition repr_dict (d : dict) : str :=
  s "{" ++ join_with (s ", ") (map repr_item d) ++ s "}".

(** [f"NumberTag({repr(self.__original_sentence[:15])},
    {repr(self.__original_equation)}, {repr(self.__lookup_table)})"] *)
Definition __repr__ (self : NumberTag.t) : str :=
  s "NumberTag("
  ++ repr_str (firstn 15 (NumberTag.original_sentence self))
  ++ s ", " ++ repr_str (NumberTag.original_equation self)
  ++ s ", " ++ repr_dict (NumberTag.lookup_table self)
  ++ s ")".

End Repr.

(** *** Notions used in the further properties *)

(** [erases a b]: the text [b] is [a] with some of its points and zeros
    taken out, and nothing else changed. *)
Inductive erases : str -> str -> Prop :=
| erases_nil : erases [] []
| erases_keep c a b : erases a b -> erases (c :: a) (c :: b)
| erases_drop c a b :
    c = "."%char \/ c = "0"%char -> erases a b -> erases (c :: a) b.

(** A run of [n] zeros. *)
Definition zeros (n : nat) : str := repeat "0"%char n.

(** The text is empty or starts with a character that is not a word
    character: [\b] holds after a digit that stands before it. *)
Definition boundary_follows (r : str) : Prop := starts_with_word r = false.

(** ** Checks on concrete inputs *)

Example split_ex : split (s "  What is  123 ? ") = [s "What"; s "is"; s "123"; s "?"].
Proof. reflexivity. Qed.

Example float_ex :
  map is_float [s "123"; s "1.5"; s "-.5"; s "1."; s "1e5"; s "+1E-5"; s "inf";
                s "-Infinity"; s "NaN"; s "1_000"; s "1_0.5e1_0"]
  = repeat true 11.
Proof. reflexivity. Qed.

Example float_ex_neg :
  map is_float [s "?"; s "<x>"; s "."; s "e5"; s "1e"; s "1__0"; s "_1"; s "1_";
                s "1.0.0"; s "x1"; s "--1"; s "0x10"; s "1,000"; s ""; s "in"; s "1_.5"]
  = repeat false 16.
Proof. reflexivity. Qed.

(** The doctests of [_normalize_numbers]. *)
Example normalize_doctest :
  map _normalize_numbers [s "123.0001"; s "123.000"; s "12.10"; s "5"]
  = [s "123.0001"; s "123"; s "12.1"; s "5"].
Proof. reflexivity. Qed.

Example normalize_ex2 :
  map _normalize_numbers [s "1.0.0"; s "a.00b"; s "x.0100 .50,0.0"; s "1.1010"]
  = [s "1"; s "a.00b"; s "x.01 .5,0"; s "1.101"].
Proof. reflexivity. Qed.

(** The doctest of the class. *)
Example numbertag_doctest :
  exists nt,
    NumberTag.__init__ (s "What is 123.0 added to 1.5 ?") (s "x = 123.0 + 1.5") = Ok nt
    /\ NumberTag.get_originals nt = (s "What is 123 added to 1.5 ?", s "x = 123 + 1.5")
    /\ NumberTag.get_masked nt = (s "What is <x> added to <y> ?", s "x = <x> + <y>")
    /\ NumberTag.unmask_sentence nt (fst (NumberTag.get_masked nt))
       = s "What is 123 added to 1.5 ?".
Proof. eexists. split; [reflexivity|]. repeat split. Qed.

(** Two spaces in a row: the masked sentence is single-spaced, the original
    is not. *)
Example two_spaces :
  NumberTag.__init__ (s "a  b") []
  = Ok {| NumberTag.original_sentence := s "a  b";
          NumberTag.original_equation := [];
          NumberTag.tagged_sentence := s "a b";
          NumberTag.tagged_equation := [];
          NumberTag.lookup_table := [] |}.
Proof. reflexivity. Qed.

(** A sentence word that is a tag already. *)
Example literal_tag :
  NumberTag.__init__ (s "<x> 1") []
  = Ok {| NumberTag.original_sentence := s "<x> 1";
          NumberTag.original_equation := [];
          NumberTag.tagged_sentence := s "<x> <x>";
          NumberTag.tagged_equation := [];
          NumberTag.lookup_table := [(s "<x>", s "1")] |}.
Proof. reflexivity. Qed.

(** A number that occurs twice takes two tags; the equation gets the later
    one, once. *)
Example repeated_number :
  NumberTag.__init__ repeat_sentence repeat_equation = Ok repeat_instance.
Proof. reflexivity. Qed.

Example eight_numbers :
  exists nt,
    NumberTag.__init__ (s "1 1 1 1 1 1 1 1") [] = Ok nt
    /\ NumberTag.tagged_sentence nt = s "<x> <y> <z> <j> <q> <v> <w> <r>".
Proof. eexists. split; reflexivity. Qed.

Example nine_numbers : NumberTag.__init__ nine_ones [] = Raise IndexError.
Proof. reflexivity. Qed.

(** ** Characters *)

Arguments isspace : simpl never.
Arguments isdecimal : simpl never.
Arguments isword : simpl never.
Arguments chr_eqb : simpl never.
Arguments is_float : simpl never.

Ltac by_cases_on_char c :=
  destruct c as [[] [] [] [] [] [] [] []]; vm_compute; try congruence; auto.

Lemma isspace_not_word c : isspace c = true -> isword c = false.
Proof. by_cases_on_char c. Qed.

Lemma isdecimal_is_word c : isdecimal c = true -> isword c = true.
Proof. by_cases_on_char c. Qed.

Lemma isdecimal_not_space c : isdecimal c = true -> isspace c = false.
Proof. by_cases_on_char c. Qed.

Lemma chr_eqb_eq a b : chr_eqb a b = true <-> a = b.
Proof. apply Ascii.eqb_eq. Qed.

Lemma str_eqb_eq a b : str_eqb a b = true <-> a = b.
Proof.
  unfold str_eqb. destruct (list_eq_dec ascii_dec a b); split; congruence.
Qed.

Lemma str_eqb_refl a : str_eqb a a = true.
Proof. now apply str_eqb_eq. Qed.

Lemma str_eqb_neq a b : str_eqb a b = false <-> a <> b.
Proof.
  unfold str_eqb. destruct (list_eq_dec ascii_dec a b); split; congruence.
Qed.

Lemma str_eqb_sym a b : str_eqb a b = str_eqb b a.
Proof.
  unfold str_eqb.
  destruct (list_eq_dec ascii_dec a b), (list_eq_dec ascii_dec b a); congruence.
Qed.

(** ** [split] and [join] *)

Lemma split_from_app_word w : forall cur t,
  Forall (fun c => isspace c = false) w ->
  split_from cur (w ++ t) = split_from (cur ++ w) t.
Proof.
  induction w as [|c w IH]; intros cur t Hw; simpl.
  - now rewrite app_nil_r.
  - inversion Hw as [|? ? Hc Hw']; subst. rewrite Hc, IH by assumption.
    now rewrite <- app_assoc.
Qed.

Lemma emit_words_ok cur rest :
  Forall (fun c => isspace c = false) cur ->
  Forall is_word_of_split rest -> Forall is_word_of_split (emit cur rest).
Proof.
  intros Hcur Hrest. destruct cur; simpl; auto.
  constructor; auto. split; [discriminate | assumption].
Qed.

Lemma split_from_words_ok t : forall cur,
  Forall (fun c => isspace c = false) cur ->
  Forall is_word_of_split (split_from cur t).
Proof.
  induction t as [|c t IH]; intros cur Hcur; simpl.
  - apply emit_words_ok; auto.
  - destruct (isspace c) eqn:Hc.
    + apply emit_words_ok; auto.
    + apply IH. apply Forall_app; auto.
Qed.

Lemma split_words_ok t : Forall is_word_of_split (split t).
Proof. apply split_from_words_ok. constructor. Qed.

Lemma split_join l : Forall is_word_of_split l -> split (join l) = l.
Proof.
  unfold split. induction l as [|w l IH]; intros Hl; [reflexivity|].
  inversion Hl as [|? ? [Hne Hw] Hl']; subst.
  destruct l as [|w' l].
  - simpl. rewrite <- (app_nil_r w) at 1.
    rewrite split_from_app_word by assumption. simpl.
    destruct w; [contradiction | reflexivity].
  - change (join (w :: w' :: l)) with (w ++ " "%char :: join (w' :: l)).
    rewrite split_from_app_word by assumption.
    remember (join (w' :: l)) as j eqn:Hj. simpl.
    rewrite IH by assumption. destruct w; [contradiction | reflexivity].
Qed.

Lemma join_split_canonical t : join (split (join (split t))) = join (split t).
Proof. now rewrite split_join by apply split_words_ok. Qed.

(** ** The [enumerate] loop is a left-to-right pass *)

Lemma list_set_middle p : forall w r x,
  list_set (p ++ w :: r) (length p) x = p ++ x :: r.
Proof.
  induction p as [|h p IH]; intros w r x; simpl; [reflexivity|].
  now rewrite IH.
Qed.

Lemma nth_error_middle (p : list str) w r :
  nth_error (p ++ w :: r) (length p) = Some w.
Proof.
  rewrite nth_error_app2 by lia. now rewrite Nat.sub_diag.
Qed.

Section PassFacts.

Variables E St : Type.
Variable body : str -> St -> result E (option str * St).

Lemma for_enumerate_from r : forall p st,
  for_enumerate body (length r) (length p) (p ++ r) st
  = match pass body r st with
    | Raise e => Raise e
    | Ok (r', st') => Ok (p ++ r', st')
    end.
Proof.
  induction r as [|w r IH]; intros p st; [reflexivity|].
  cbn [length for_enumerate pass]. rewrite nth_error_middle.
  destruct (body w st) as [[[x|] st']|e]; [| |reflexivity].
  - rewrite list_set_middle.
    replace (p ++ x :: r) with ((p ++ [x]) ++ r) by now rewrite <- app_assoc.
    replace (S (length p)) with (length (p ++ [x]))
      by (rewrite length_app; simpl; lia).
    rewrite IH. destruct (pass body r st') as [[r' st'']|e]; [|reflexivity].
    now rewrite <- app_assoc.
  - replace (p ++ w :: r) with ((p ++ [w]) ++ r) by now rewrite <- app_assoc.
    replace (S (length p)) with (length (p ++ [w]))
      by (rewrite length_app; simpl; lia).
    rewrite IH. destruct (pass body r st') as [[r' st'']|e]; [|reflexivity].
    now rewrite <- app_assoc.
Qed.

Lemma for_enumerate_pass l st :
  for_enumerate body (length l) 0 l st = pass body l st.
Proof.
  pose proof (for_enumerate_from l [] st) as H. simpl in H. rewrite H.
  now destruct (pass body l st) as [[r' st']|e].
Qed.

End PassFacts.

(** ** The tag alphabet *)

Lemma tags_nth_error i :
  i < 8 -> exists sym, nth_error _TAGS i = Some sym /\ s "<" ++ sym ++ s ">" = tag i.
Proof.
  intros Hi.
  do 8 (destruct i as [|i]; [eexists; split; reflexivity|]). lia.
Qed.

Lemma tags_nth_error_none i : 8 <= i -> nth_error _TAGS i = None.
Proof. intros Hi. apply nth_error_None. simpl. lia. Qed.

Lemma tag_inj i j : i < 8 -> j < 8 -> tag i = tag j -> i = j.
Proof.
  intros Hi Hj.
  do 8 (destruct i as [|i]; [do 8 (destruct j as [|j];
        [vm_compute; congruence|]); lia|]).
  lia.
Qed.

Lemma tag_not_float i : is_float (tag i) = false.
Proof.
  do 8 (destruct i as [|i]; [reflexivity|]).
  unfold tag. rewrite nth_overflow by (simpl; lia). reflexivity.
Qed.

Lemma tag_is_word_of_split i : is_word_of_split (tag i).
Proof.
  split; [discriminate|].
  do 8 (destruct i as [|i]; [repeat constructor|]).
  unfold tag. rewrite nth_overflow by (simpl; lia). repeat constructor.
Qed.

(** ** Dictionaries *)

Arguments str_eqb : simpl never.

Module DictFacts.

Import Dict.

Lemma get_none d k : get d k = None <-> ~ In k (keys d).
Proof.
  induction d as [|[k' v] d IH]; simpl; [tauto|].
  destruct (str_eqb k' k) eqn:Hk.
  - apply str_eqb_eq in Hk. split; [discriminate | tauto].
  - apply str_eqb_neq in Hk. tauto.
Qed.

Lemma set_fresh d k v : ~ In k (keys d) -> set d k v = d ++ [(k, v)].
Proof.
  induction d as [|[k' v'] d IH]; simpl; intros Hk; [reflexivity|].
  destruct (str_eqb k' k) eqn:E.
  - apply str_eqb_eq in E. tauto.
  - rewrite IH by tauto. reflexivity.
Qed.

Lemma get_set d k v k' :
  get (set d k v) k' = if str_eqb k k' then Some v else get d k'.
Proof.
  induction d as [|[k0 v0] d IH]; simpl.
  - reflexivity.
  - destruct (str_eqb k0 k) eqn:E0; simpl.
    + apply str_eqb_eq in E0; subst k0. now destruct (str_eqb k k').
    + rewrite IH. destruct (str_eqb k0 k') eqn:E1; [|reflexivity].
      apply str_eqb_eq in E1; subst k0. now rewrite str_eqb_sym, E0.
Qed.

Lemma get_del d k k' :
  NoDup (keys d) ->
  get (del d k) k' = if str_eqb k k' then None else get d k'.
Proof.
  induction d as [|[k0 v0] d IH]; simpl; intros Hnd.
  - now destruct (str_eqb k k').
  - inversion Hnd as [|? ? Hnotin Hnd']; subst.
    destruct (str_eqb k0 k) eqn:E0.
    + apply str_eqb_eq in E0; subst k0.
      destruct (str_eqb k k') eqn:E1; [|reflexivity].
      apply str_eqb_eq in E1; subst k'. now apply get_none.
    + simpl. rewrite IH by assumption.
      destruct (str_eqb k0 k') eqn:E1; [|reflexivity].
      apply str_eqb_eq in E1; subst k0. now rewrite str_eqb_sym, E0.
Qed.

End DictFacts.

(** ** The first loop of [__map_numbers] *)

Module TagLoop.

Import Dict DictFacts NumberTag.

Lemma table_from_length k nums : length (table_from k nums) = length nums.
Proof.
  unfold table_from. rewrite length_combine, length_map, length_seq. lia.
Qed.

Lemma table_from_cons k w nums :
  table_from k (w :: nums) = (tag k, w) :: table_from (S k) nums.
Proof. reflexivity. Qed.

Lemma table_from_keys nums : forall k,
  keys (table_from k nums) = map tag (seq k (length nums)).
Proof.
  induction nums as [|w nums IH]; intros k; [reflexivity|].
  rewrite table_from_cons. cbn [keys map fst length seq].
  f_equal. apply IH.
Qed.

Lemma table_from_values nums : forall k, values (table_from k nums) = nums.
Proof.
  induction nums as [|w nums IH]; intros k; [reflexivity|].
  rewrite table_from_cons. cbn [values map snd]. f_equal. apply IH.
Qed.

Lemma tag_fresh n : n < 8 -> ~ In (tag n) (map tag (seq 0 n)).
Proof.
  intros Hn Hin. apply in_map_iff in Hin as (j & Hj & Hin).
  apply in_seq in Hin. apply tag_inj in Hj; lia.
Qed.

(** The loop started with the tags [0 .. length d - 1] taken: it raises
    exactly when the alphabet runs out, and otherwise tags the numeric words
    in order and appends one entry for each of them. *)
Lemma pass_tag_word words : forall d,
  keys d = map tag (seq 0 (length d)) ->
  length d <= 8 ->
  pass tag_word words d
  = if length d + length (filter is_float words) <=? 8
    then Ok (tagged_from (length d) words,
             d ++ table_from (length d) (filter is_float words))
    else Raise IndexError.
Proof.
  induction words as [|w r IH]; intros d Hkeys Hlen.
  - simpl. rewrite Nat.add_0_r.
    destruct (Nat.leb_spec (length d) 8); [|lia]. now rewrite app_nil_r.
  - cbn [pass filter tagged_from]. unfold tag_word.
    destruct (is_float w) eqn:Hw.
    + destruct (Nat.eq_dec (length d) 8) as [H8|H8].
      * rewrite tags_nth_error_none by lia. cbn [length].
        destruct (Nat.leb_spec (length d + S (length (filter is_float r))) 8);
          [lia | reflexivity].
      * destruct (tags_nth_error (length d)) as (sym & -> & ->); [lia|].
        rewrite set_fresh by (rewrite Hkeys; apply tag_fresh; lia).
        rewrite IH.
        -- rewrite length_app. cbn [length]. rewrite Nat.add_1_r.
           rewrite table_from_cons.
           replace (length d + S (length (filter is_float r)))
             with (S (length d) + length (filter is_float r)) by lia.
           destruct (S (length d) + length (filter is_float r) <=? 8);
             [|reflexivity].
           now rewrite <- app_assoc.
        -- unfold keys in *. rewrite map_app, length_app, Hkeys. cbn [length map fst].
           rewrite Nat.add_1_r, seq_S, map_app. reflexivity.
        -- rewrite length_app. simpl. lia.
    + rewrite IH by assumption.
      now destruct (length d + length (filter is_float r) <=? 8).
Qed.

End TagLoop.

(** ** What [__init__] computes *)

Module InitFacts.

Import Dict DictFacts NumberTag TagLoop.

(** Construction fails exactly when the normalised sentence has more numeric
    words than [_TAGS] has symbols; otherwise the instance is the one
    below. *)
Lemma init_spec sentence equation :
  __init__ sentence equation
  = let os := _normalize_numbers sentence in
    let oe := _normalize_numbers equation in
    let nums := numeric_words os in
    if length nums <=? 8
    then Ok {| original_sentence := os;
               original_equation := oe;
               tagged_sentence := join (tagged_from 0 (split os));
               tagged_equation :=
                 join (adjusted (invert (table_from 0 nums)) (split oe));
               lookup_table := table_from 0 nums |}
    else Raise IndexError.
Proof.
  unfold __init__, __map_numbers. rewrite !for_enumerate_pass.
  rewrite pass_tag_word by (simpl; auto with arith).
  cbn [length app Nat.add]. cbv zeta. unfold numeric_words.
  destruct (length (filter is_float (split (_normalize_numbers sentence))) <=? 8);
    [|reflexivity].
  rewrite for_enumerate_pass. reflexivity.
Qed.

Lemma init_ok sentence equation nt :
  __init__ sentence equation = Ok nt ->
  let os := _normalize_numbers sentence in
  let oe := _normalize_numbers equation in
  let nums := numeric_words os in
  length nums <= 8
  /\ original_sentence nt = os
  /\ original_equation nt = oe
  /\ tagged_sentence nt = join (tagged_from 0 (split os))
  /\ tagged_equation nt = join (adjusted (invert (table_from 0 nums)) (split oe))
  /\ lookup_table nt = table_from 0 nums.
Proof.
  rewrite init_spec. cbv zeta.
  destruct (Nat.leb_spec (length (numeric_words (_normalize_numbers sentence))) 8)
    as [Hle|Hgt]; [|discriminate].
  intros [= <-]. simpl. auto 10.
Qed.

Lemma init_raise sentence equation :
  __init__ sentence equation = Raise IndexError
  <-> 8 < length (numeric_words (_normalize_numbers sentence)).
Proof.
  rewrite init_spec. cbv zeta.
  destruct (Nat.leb_spec (length (numeric_words (_normalize_numbers sentence))) 8);
    split; intros; try discriminate; try lia; reflexivity.
Qed.

(** *** The tagged words *)

Lemma tagged_from_length words : forall k,
  length (tagged_from k words) = length words.
Proof.
  induction words as [|w r IH]; intros k; simpl; [reflexivity|].
  destruct (is_float w); simpl; now rewrite IH.
Qed.

Lemma tagged_from_words_ok words : forall k,
  Forall is_word_of_split words -> Forall is_word_of_split (tagged_from k words).
Proof.
  induction words as [|w r IH]; intros k Hw; simpl; [constructor|].
  inversion Hw; subst.
  destruct (is_float w); constructor; auto using tag_is_word_of_split.
Qed.

Lemma tagged_from_nth words : forall k p w,
  nth_error words p = Some w ->
  nth_error (tagged_from k words) p
  = Some (if is_float w
          then tag (k + length (filter is_float (firstn p words)))
          else w).
Proof.
  induction words as [|w0 r IH]; intros k p w Hp; [now destruct p|].
  destruct p as [|p]; simpl in Hp.
  - injection Hp as ->. simpl. rewrite Nat.add_0_r. now destruct (is_float w).
  - cbn [tagged_from firstn filter].
    destruct (is_float w0); cbn [nth_error length]; rewrite (IH _ _ _ Hp);
      destruct (is_float w); try reflexivity.
    now rewrite Nat.add_succ_r.
Qed.

Lemma tagged_from_no_numeric words : forall k,
  filter is_float words = [] -> tagged_from k words = words.
Proof.
  induction words as [|w r IH]; intros k Hf; [reflexivity|].
  simpl in *. destruct (is_float w); [discriminate|]. now rewrite IH.
Qed.

Lemma split_tagged_sentence text :
  split (join (tagged_from 0 (split text))) = tagged_from 0 (split text).
Proof. apply split_join, tagged_from_words_ok, split_words_ok. Qed.

(** *** The lookup table *)

Lemma table_from_nth nums : forall k i,
  nth_error (table_from k nums) i
  = match nth_error nums i with
    | Some w => Some (tag (k + i), w)
    | None => None
    end.
Proof.
  induction nums as [|w nums IH]; intros k i; [now destruct i|].
  rewrite table_from_cons. destruct i as [|i]; simpl.
  - now rewrite Nat.add_0_r.
  - rewrite IH. now rewrite Nat.add_succ_r.
Qed.

Lemma table_from_keys_nodup nums k :
  k + length nums <= 8 -> NoDup (keys (table_from k nums)).
Proof.
  intros Hk. rewrite table_from_keys.
  apply NoDup_map_NoDup_ForallPairs; [|apply seq_NoDup].
  intros i j Hi Hj. apply in_seq in Hi, Hj. apply tag_inj; lia.
Qed.

Lemma table_from_get nums : forall k i,
  k + length nums <= 8 -> i < length nums ->
  get (table_from k nums) (tag (k + i)) = nth_error nums i.
Proof.
  induction nums as [|w nums IH]; intros k i Hk Hi; simpl in Hi; [lia|].
  rewrite table_from_cons. cbn [get].
  destruct i as [|i].
  - rewrite Nat.add_0_r, str_eqb_refl. reflexivity.
  - destruct (str_eqb (tag k) (tag (k + S i))) eqn:E.
    + apply str_eqb_eq, tag_inj in E; simpl in Hk; lia.
    + rewrite Nat.add_succ_r. simpl in Hk.
      apply (IH (S k) i); lia.
Qed.

End InitFacts.

(** ** The reverse map and the second loop of [__map_numbers] *)

Module AdjustFacts.

Import Dict DictFacts NumberTag TagLoop InitFacts.

Lemma keys_set d k v :
  keys (set d k v) = match get d k with Some _ => keys d | None => keys d ++ [k] end.
Proof.
  induction d as [|[k0 v0] d IH]; simpl; [reflexivity|].
  destruct (str_eqb k0 k) eqn:E; simpl; [reflexivity|].
  rewrite IH. now destruct (get d k).
Qed.

Lemma set_keys_nodup d k v : NoDup (keys d) -> NoDup (keys (set d k v)).
Proof.
  intros Hd. rewrite keys_set. destruct (get d k) eqn:E; [assumption|].
  apply get_none in E. apply NoDup_app; auto.
  - repeat constructor. intros [].
  - intros x Hx [<-|[]]. contradiction.
Qed.

Lemma del_keys_incl d k : incl (keys (del d k)) (keys d).
Proof.
  induction d as [|[k0 v0] d IH]; simpl; [apply incl_refl|].
  destruct (str_eqb k0 k); simpl.
  - apply incl_tl, incl_refl.
  - apply incl_cons; [now left | now apply incl_tl].
Qed.

Lemma del_keys_nodup d k : NoDup (keys d) -> NoDup (keys (del d k)).
Proof.
  induction d as [|[k0 v0] d IH]; simpl; intros Hd; [constructor|].
  inversion Hd as [|? ? Hnotin Hd']; subst.
  destruct (str_eqb k0 k); simpl; [assumption|].
  constructor; [|auto]. intros Hin. apply Hnotin. now apply (del_keys_incl d k).
Qed.

(** *** [invert] *)

Lemma invert_fold_nodup l : forall acc,
  NoDup (keys acc) -> NoDup (keys (fold_left invert_step l acc)).
Proof.
  induction l as [|kv l IH]; intros acc Hacc; simpl; [assumption|].
  apply IH. now apply set_keys_nodup.
Qed.

Lemma invert_fold_absent l w : forall acc,
  ~ In w (values l) ->
  get (fold_left invert_step l acc) w = get acc w.
Proof.
  induction l as [|[k v] l IH]; intros acc Hw; simpl in *; [reflexivity|].
  rewrite IH by tauto. unfold invert_step. simpl. rewrite get_set.
  destruct (str_eqb v w) eqn:E; [|reflexivity].
  apply str_eqb_eq in E. tauto.
Qed.

(** Later entries overwrite earlier ones: the key kept for a value is the
    one of its last entry. *)
Lemma invert_fold_last l1 k w l2 acc :
  ~ In w (values l2) ->
  get (fold_left invert_step (l1 ++ (k, w) :: l2) acc) w = Some k.
Proof.
  intros Hw. rewrite fold_left_app. simpl.
  rewrite invert_fold_absent by assumption.
  unfold invert_step. simpl. now rewrite get_set, str_eqb_refl.
Qed.

Lemma invert_nodup l : NoDup (keys (invert l)).
Proof. apply (invert_fold_nodup l []). constructor. Qed.

Lemma table_from_app a : forall k b,
  table_from k (a ++ b) = table_from k a ++ table_from (k + length a) b.
Proof.
  induction a as [|w a IH]; intros k b; simpl.
  - now rewrite Nat.add_0_r.
  - rewrite !table_from_cons, IH. simpl. now rewrite Nat.add_succ_r.
Qed.

Lemma nth_error_split_at (l : list str) i w :
  nth_error l i = Some w -> l = firstn i l ++ w :: skipn (S i) l /\ length (firstn i l) = i.
Proof.
  revert i. induction l as [|h l IH]; intros i Hi; [now destruct i|].
  destruct i as [|i]; simpl in *.
  - injection Hi as ->. auto.
  - destruct (IH _ Hi) as [H1 H2]. now rewrite <- H1, H2.
Qed.

Lemma invert_table_last nums i w :
  nth_error nums i = Some w ->
  ~ In w (skipn (S i) nums) ->
  get (invert (table_from 0 nums)) w = Some (tag i).
Proof.
  intros Hi Hlast. destruct (nth_error_split_at _ _ _ Hi) as [Hsplit Hlen].
  rewrite Hsplit, table_from_app, table_from_cons, Hlen. simpl.
  apply (invert_fold_last _ _ _ _ []). now rewrite table_from_values.
Qed.

Lemma invert_table_absent nums w :
  ~ In w nums -> get (invert (table_from 0 nums)) w = None.
Proof.
  intros Hw. unfold invert.
  change (get (fold_left invert_step (table_from 0 nums) []) w = None).
  rewrite invert_fold_absent; [reflexivity|]. now rewrite table_from_values.
Qed.

Lemma last_occurrence (nums : list str) w :
  In w nums ->
  exists i, nth_error nums i = Some w /\ ~ In w (skipn (S i) nums).
Proof.
  induction nums as [|h r IH]; intros Hin; [contradiction|].
  destruct (in_dec (list_eq_dec ascii_dec) w r) as [Hr|Hr].
  - destruct (IH Hr) as (i & Hi & Hlast). now exists (S i).
  - destruct Hin as [->|Hin]; [|contradiction]. now exists 0.
Qed.

Lemma invert_table_some nums w t :
  get (invert (table_from 0 nums)) w = Some t ->
  exists i, t = tag i /\ nth_error nums i = Some w /\ ~ In w (skipn (S i) nums).
Proof.
  intros Hget.
  destruct (in_dec (list_eq_dec ascii_dec) w nums) as [Hin|Hout].
  - destruct (last_occurrence _ _ Hin) as (i & Hi & Hlast).
    rewrite (invert_table_last _ _ _ Hi Hlast) in Hget. injection Hget as <-.
    now exists i.
  - rewrite invert_table_absent in Hget by assumption. discriminate.
Qed.

(** *** The pass over the equation words *)

Lemma adjusted_cons ad w r :
  adjusted ad (w :: r) = unmask_one ad w :: adjusted (after_word ad w) r.
Proof.
  unfold adjusted, after_word, unmask_one. cbn [pass].
  replace (adjust_word w ad)
    with (match get ad w with
          | Some t => @Ok Empty_set _ (Some t, del ad w)
          | None => Ok (None, ad)
          end) by reflexivity.
  destruct (get ad w) as [t|].
  - now destruct (pass adjust_word r (del ad w)) as [[r' st]|[]].
  - now destruct (pass adjust_word r ad) as [[r' st]|[]].
Qed.

Lemma after_word_nodup ad w : NoDup (keys ad) -> NoDup (keys (after_word ad w)).
Proof.
  unfold after_word. destruct (get ad w); auto using del_keys_nodup.
Qed.

Lemma get_after_word ad w w' :
  NoDup (keys ad) ->
  get (after_word ad w) w' = if str_eqb w w' then None else get ad w'.
Proof.
  intros Hnd. unfold after_word. destruct (get ad w) eqn:E.
  - now apply get_del.
  - destruct (str_eqb w w') eqn:E'; [|reflexivity].
    apply str_eqb_eq in E'. congruence.
Qed.

Lemma adjusted_length ew : forall ad, length (adjusted ad ew) = length ew.
Proof.
  induction ew as [|w r IH]; intros ad; [reflexivity|].
  rewrite adjusted_cons. simpl. now rewrite IH.
Qed.

(** The first occurrence of a word in the equation takes what the reverse
    map holds for it; a word seen before is left as it is. *)
Lemma adjusted_nth ew : forall ad j w,
  NoDup (keys ad) ->
  nth_error ew j = Some w ->
  nth_error (adjusted ad ew) j
  = Some (if existsb (str_eqb w) (firstn j ew) then w else unmask_one ad w).
Proof.
  induction ew as [|w0 r IH]; intros ad j w Hnd Hj; [now destruct j|].
  rewrite adjusted_cons. destruct j as [|j]; simpl in Hj.
  - injection Hj as ->. reflexivity.
  - cbn [nth_error firstn existsb].
    rewrite (IH _ _ _ (after_word_nodup _ w0 Hnd) Hj).
    unfold unmask_one. rewrite get_after_word by assumption.
    rewrite (str_eqb_sym w w0).
    destruct (str_eqb w0 w) eqn:E; simpl; [|reflexivity].
    now destruct (existsb (str_eqb w) (firstn j r)).
Qed.

Lemma adjusted_words_ok ew : forall ad,
  NoDup (keys ad) ->
  (forall w t, get ad w = Some t -> is_word_of_split t) ->
  Forall is_word_of_split ew ->
  Forall is_word_of_split (adjusted ad ew).
Proof.
  induction ew as [|w r IH]; intros ad Hnd Hvals Hew; [constructor|].
  rewrite adjusted_cons. inversion Hew; subst. constructor.
  - unfold unmask_one. destruct (get ad w) eqn:E; eauto.
  - apply IH; auto using after_word_nodup.
    intros w' t. rewrite get_after_word by assumption.
    destruct (str_eqb w w'); [discriminate | apply Hvals].
Qed.

Lemma split_tagged_equation nums text :
  split (join (adjusted (invert (table_from 0 nums)) (split text)))
  = adjusted (invert (table_from 0 nums)) (split text).
Proof.
  apply split_join, adjusted_words_ok.
  - apply invert_nodup.
  - intros w t Hget. apply invert_table_some in Hget as (i & -> & _).
    apply tag_is_word_of_split.
  - apply split_words_ok.
Qed.

End AdjustFacts.

(** ** The pattern of [_normalize_numbers] *)

Module ReFacts.

Import Re.

Lemma take_skip_digits t : t = take_digits t ++ skip_digits t.
Proof.
  induction t as [|c t IH]; simpl; [reflexivity|].
  destruct (isdecimal c); simpl; [now f_equal | reflexivity].
Qed.

Lemma take_digits_are_digits t : Forall (fun c => isdecimal c = true) (take_digits t).
Proof.
  induction t as [|c t IH]; simpl; [constructor|].
  destruct (isdecimal c) eqn:E; constructor; assumption.
Qed.

Lemma skip_digits_no_digit t : starts_with_digit (skip_digits t) = false.
Proof.
  induction t as [|c t IH]; simpl; [reflexivity|].
  destruct (isdecimal c) eqn:E; [assumption | simpl; assumption].
Qed.

Lemma skip_digits_length t : length (skip_digits t) <= length t.
Proof.
  induction t as [|c t IH]; simpl; [lia|].
  destruct (isdecimal c); simpl; lia.
Qed.

Lemma take_digits_app ds r :
  Forall (fun c => isdecimal c = true) ds -> starts_with_digit r = false ->
  take_digits (ds ++ r) = ds.
Proof.
  intros Hds Hr. induction Hds as [|d ds Hd _ IH]; simpl.
  - destruct r as [|c r]; [reflexivity|]. simpl in *. now rewrite Hr.
  - now rewrite Hd, IH.
Qed.

Lemma skip_digits_app ds r :
  Forall (fun c => isdecimal c = true) ds -> starts_with_digit r = false ->
  skip_digits (ds ++ r) = r.
Proof.
  intros Hds Hr. induction Hds as [|d ds Hd _ IH]; simpl.
  - destruct r as [|c r]; [reflexivity|]. simpl in *. now rewrite Hr.
  - now rewrite Hd, IH.
Qed.

Lemma zero_is_digit c : chr_eqb c "0" = true -> isdecimal c = true.
Proof. intros H. apply chr_eqb_eq in H. now subst. Qed.

Lemma word_start_of_digits (ds r : str) d :
  isdecimal d = true -> is_word_at (hd_error ((d :: ds) ++ r)) = true.
Proof. intros Hd. simpl. now apply isdecimal_is_word. Qed.

(** [0+\b] on a run of digits followed by a non-digit. *)
Lemma zeros_boundary_digits ds r :
  Forall (fun c => isdecimal c = true) ds -> starts_with_digit r = false ->
  zeros_boundary (ds ++ r)
  = if zeros_ok ds (starts_with_word r) then Some r else None.
Proof.
  intros Hds Hr. induction Hds as [|d ds Hd Hds IH].
  - destruct r as [|c r]; [reflexivity|]. simpl in *.
    destruct (chr_eqb c "0") eqn:E; [|reflexivity].
    apply zero_is_digit in E. congruence.
  - cbn [app zeros_boundary]. rewrite IH. cbn [zeros_ok forallb].
    destruct (chr_eqb d "0") eqn:E0; [|reflexivity].
    apply chr_eqb_eq in E0; subst d.
    destruct ds as [|d' ds].
    + simpl. unfold at_boundary, starts_with_word.
      now destruct (is_word_at (hd_error r)).
    + cbn [zeros_ok forallb] in *.
      destruct (chr_eqb d' "0" && forallb (fun c => chr_eqb c "0") ds
                && negb (starts_with_word r)) eqn:E1.
      * simpl. now rewrite E1.
      * unfold at_boundary. inversion Hds as [|? ? Hd' _]; subst.
        rewrite (word_start_of_digits ds r d' Hd'). simpl. now rewrite E1.
Qed.

(** [(\d*?)0+\b] on a run of digits followed by a non-digit. *)
Lemma lazy_digits_spec ds : forall group r,
  Forall (fun c => isdecimal c = true) ds -> starts_with_digit r = false ->
  lazy_digits group (ds ++ r)
  = option_map (fun g => (g, r)) (lazy_spec group ds (starts_with_word r)).
Proof.
  induction ds as [|d ds IH]; intros group r Hds Hr.
  - pose proof (zeros_boundary_digits [] r Hds Hr) as Hz.
    simpl in Hz. destruct r as [|c r]; simpl; [reflexivity|].
    simpl in Hz. rewrite Hz. simpl in Hr. now rewrite Hr.
  - inversion Hds as [|? ? Hd Hds']; subst.
    pose proof (zeros_boundary_digits (d :: ds) r Hds Hr) as Hz.
    cbn [lazy_spec]. cbn [app] in *. cbn [lazy_digits]. rewrite Hz.
    destruct (zeros_ok (d :: ds) (starts_with_word r)); [reflexivity|].
    rewrite Hd. now apply IH.
Qed.

Lemma match_here_spec t :
  match_here ("."%char :: t)
  = option_map (fun g => (g, skip_digits t))
      (lazy_spec [] (take_digits t) (starts_with_word (skip_digits t))).
Proof.
  cbn [match_here]. change (chr_eqb "." ".") with true. cbv iota.
  rewrite (take_skip_digits t) at 1.
  apply lazy_digits_spec;
    [apply take_digits_are_digits | apply skip_digits_no_digit].
Qed.

Lemma match_here_not_point c t : chr_eqb c "." = false -> match_here (c :: t) = None.
Proof. intros H. simpl. now rewrite H. Qed.

Lemma match_here_rest_shorter t g rest :
  match_here t = Some (g, rest) -> length rest < length t.
Proof.
  destruct t as [|c t]; [discriminate|].
  destruct (chr_eqb c ".") eqn:E.
  - apply chr_eqb_eq in E; subst c. rewrite match_here_spec.
    destruct (lazy_spec _ _ _); [|discriminate].
    intros [= _ <-]. pose proof (skip_digits_length t). simpl. lia.
  - now rewrite match_here_not_point.
Qed.

Lemma zeros_ok_false_iff ds :
  zeros_ok ds false = true
  <-> ds <> [] /\ forallb (fun c => chr_eqb c "0") ds = true.
Proof.
  destruct ds as [|d ds]; cbn [zeros_ok].
  - split; [discriminate | intros [H _]; now contradiction H].
  - rewrite andb_true_r. split; [split; [discriminate | assumption] | tauto].
Qed.

Lemma zeros_ok_app a z :
  zeros_ok a false = true -> zeros_ok z false = true ->
  zeros_ok (a ++ z) false = true.
Proof.
  rewrite !zeros_ok_false_iff. intros [Ha1 Ha2] [Hz1 Hz2]. split.
  - destruct a; [contradiction | discriminate].
  - rewrite forallb_app. now rewrite Ha2, Hz2.
Qed.

(** What a successful [lazy_spec] tells: the group extends [group] by a
    prefix [p] of the digits, zeros [z] fill the rest, a non-word character
    or the end follows, and the pattern matches nowhere on [p] alone. *)
Lemma lazy_spec_some ds : forall group b g,
  lazy_spec group ds b = Some g ->
  exists p z, g = group ++ p /\ ds = p ++ z /\ b = false
           /\ zeros_ok z false = true
           /\ forall acc, lazy_spec acc p false = None.
Proof.
  induction ds as [|d ds IH]; intros group b g; [discriminate|].
  cbn [lazy_spec]. destruct (zeros_ok (d :: ds) b) eqn:Ez.
  - intros [= <-]. exists [], (d :: ds). rewrite app_nil_r.
    assert (b = false) as ->.
    { cbn [zeros_ok] in Ez. apply andb_prop in Ez as [_ Hb]. now destruct b. }
    repeat split; auto.
  - intros Hg. apply IH in Hg as (p & z & -> & -> & -> & Hz & Hp).
    exists (d :: p), z. rewrite <- app_assoc. repeat split; auto.
    intros acc. cbn [lazy_spec].
    destruct (zeros_ok (d :: p) false) eqn:Ez'; [|apply Hp].
    pose proof (zeros_ok_app (d :: p) z Ez' Hz) as Habs.
    simpl app in Habs. congruence.
Qed.

Lemma lazy_spec_group_digits ds : forall group b g,
  lazy_spec group ds b = Some g -> exists p z, g = group ++ p /\ ds = p ++ z.
Proof.
  intros group b g Hg.
  apply lazy_spec_some in Hg as (p & z & ? & ? & _). eauto.
Qed.

(** *** Unfolding [_normalize_numbers] *)

Lemma sub_fuel_enough n : forall m t,
  length t <= n -> length t <= m -> sub_fuel n t = sub_fuel m t.
Proof.
  induction n as [|n IH]; intros m t Hn Hm.
  - destruct t; [|simpl in Hn; lia]. now destruct m.
  - destruct t as [|c t]; [now destruct m|].
    destruct m as [|m]; [simpl in Hm; lia|].
    cbn [sub_fuel]. destruct (match_here (c :: t)) as [[g rest]|] eqn:E.
    + apply match_here_rest_shorter in E. simpl in *.
      f_equal. apply IH; lia.
    + simpl in *. f_equal. apply IH; lia.
Qed.

Lemma normalize_nil : _normalize_numbers [] = [].
Proof. reflexivity. Qed.

Lemma normalize_cons c t :
  _normalize_numbers (c :: t)
  = match match_here (c :: t) with
    | Some (g, rest) => repl g ++ _normalize_numbers rest
    | None => c :: _normalize_numbers t
    end.
Proof.
  unfold _normalize_numbers. cbn [length sub_fuel].
  destruct (match_here (c :: t)) as [[g rest]|] eqn:E.
  - apply match_here_rest_shorter in E. simpl in E.
    f_equal. apply sub_fuel_enough; lia.
  - reflexivity.
Qed.

(** Induction along the scan of [re.sub]. *)
Lemma scan_ind (P : str -> Prop) :
  P [] ->
  (forall c t, match_here (c :: t) = None -> P t -> P (c :: t)) ->
  (forall c t g rest, match_here (c :: t) = Some (g, rest) -> P rest -> P (c :: t)) ->
  forall t, P t.
Proof.
  intros Hnil Hcopy Hmatch t.
  remember (length t) as n eqn:Hn. revert t Hn.
  induction n as [n IH] using lt_wf_ind. intros t Hn.
  destruct t as [|c t]; [assumption|].
  destruct (match_here (c :: t)) as [[g rest]|] eqn:E.
  - apply (Hmatch c t g rest E).
    apply match_here_rest_shorter in E.
    apply (IH (length rest)); [lia | reflexivity].
  - apply Hcopy; [assumption|]. apply (IH (length t)); [simpl in Hn; lia | reflexivity].
Qed.

(** *** What a match looks like *)

Arguments match_here : simpl never.

Lemma point_not_digit c : isdecimal c = true -> chr_eqb c "." = false.
Proof. by_cases_on_char c. Qed.

Lemma space_not_point c : isspace c = true -> chr_eqb c "." = false.
Proof. by_cases_on_char c. Qed.

Lemma match_here_some c t g rest :
  match_here (c :: t) = Some (g, rest) ->
  c = "."%char /\ rest = skip_digits t /\ starts_with_word rest = false
  /\ (exists z, take_digits t = g ++ z)
  /\ forall acc, lazy_spec acc g false = None.
Proof.
  destruct (chr_eqb c ".") eqn:Ec.
  - apply chr_eqb_eq in Ec; subst c. rewrite match_here_spec.
    destruct (lazy_spec [] (take_digits t) (starts_with_word (skip_digits t)))
      as [g'|] eqn:El; [|discriminate].
    intros [= <- <-].
    apply lazy_spec_some in El as (p & z & -> & Ht & Hb & _ & Hp).
    simpl. eauto 10.
  - now rewrite match_here_not_point.
Qed.

Lemma digits_prefix (g z : str) t :
  take_digits t = g ++ z -> Forall (fun c => isdecimal c = true) g.
Proof.
  intros H. pose proof (take_digits_are_digits t) as Hd. rewrite H in Hd.
  now apply Forall_app in Hd.
Qed.

(** *** The first character of the result *)

Lemma normalize_head t :
  starts_with_digit (_normalize_numbers t) = starts_with_digit t
  /\ starts_with_word (_normalize_numbers t) = starts_with_word t.
Proof.
  induction t as [| c t Hnone IH | c t g rest Hsome IH] using scan_ind.
  - auto.
  - rewrite normalize_cons, Hnone. auto.
  - rewrite normalize_cons, Hsome.
    apply match_here_some in Hsome as (-> & -> & Hw & _ & _).
    destruct g as [|g0 g]; [|auto]. simpl repl. simpl app.
    destruct IH as [IHd IHw]. rewrite IHd, IHw, Hw, skip_digits_no_digit. auto.
Qed.

Lemma normalize_digits ds r :
  Forall (fun c => isdecimal c = true) ds ->
  _normalize_numbers (ds ++ r) = ds ++ _normalize_numbers r.
Proof.
  intros Hds. induction Hds as [|d ds Hd _ IH]; [reflexivity|].
  simpl app. rewrite normalize_cons, match_here_not_point
    by now apply point_not_digit.
  now rewrite IH.
Qed.

Lemma normalize_take_skip t :
  take_digits (_normalize_numbers t) = take_digits t
  /\ skip_digits (_normalize_numbers t) = _normalize_numbers (skip_digits t).
Proof.
  rewrite (take_skip_digits t) at 1 3.
  rewrite normalize_digits by apply take_digits_are_digits.
  assert (Hr : starts_with_digit (_normalize_numbers (skip_digits t)) = false).
  { rewrite (proj1 (normalize_head _)). apply skip_digits_no_digit. }
  split.
  - apply take_digits_app; [apply take_digits_are_digits | assumption].
  - apply skip_digits_app; [apply take_digits_are_digits | assumption].
Qed.

(** A position where the pattern does not match before the substitution
    does not match after it either. *)
Lemma match_here_none_normalize c t :
  match_here (c :: t) = None -> match_here (c :: _normalize_numbers t) = None.
Proof.
  destruct (chr_eqb c ".") eqn:Ec.
  - apply chr_eqb_eq in Ec; subst c. rewrite !match_here_spec.
    destruct (normalize_take_skip t) as [-> ->].
    rewrite (proj2 (normalize_head _)).
    now destruct (lazy_spec _ _ _).
  - intros _. now apply match_here_not_point.
Qed.

Lemma no_match_digits ds r :
  Forall (fun c => isdecimal c = true) ds -> no_match r -> no_match (ds ++ r).
Proof.
  intros Hds Hr. induction Hds as [|d ds Hd _ IH]; [assumption|].
  cbn [app no_match]. split; [|assumption].
  rewrite match_here_not_point; [reflexivity | now apply point_not_digit].
Qed.

(** The result of [_normalize_numbers] holds no match of the pattern. *)
Lemma normalize_no_match t : no_match (_normalize_numbers t).
Proof.
  induction t as [| c t Hnone IH | c t g rest Hsome IH] using scan_ind.
  - exact I.
  - rewrite normalize_cons, Hnone. split; [|assumption].
    now apply match_here_none_normalize.
  - rewrite normalize_cons, Hsome.
    apply match_here_some in Hsome as (-> & -> & Hw & [z Hz] & Hg).
    destruct g as [|g0 g]; [assumption|].
    pose proof (digits_prefix _ _ _ Hz) as Hdig.
    assert (Hr : starts_with_digit (_normalize_numbers (skip_digits t)) = false).
    { rewrite (proj1 (normalize_head _)). apply skip_digits_no_digit. }
    cbn [repl app no_match]. split.
    + change (match_here ("."%char :: (g0 :: g) ++ _normalize_numbers (skip_digits t)) = None).
      rewrite match_here_spec.
      rewrite take_digits_app, skip_digits_app by assumption.
      rewrite (proj2 (normalize_head _)), Hw, Hg. reflexivity.
    + now apply (no_match_digits (g0 :: g)).
Qed.

Lemma normalize_fixed t : no_match t -> _normalize_numbers t = t.
Proof.
  induction t as [|c t IH]; intros Hnm; [reflexivity|].
  destruct Hnm as [Hc Ht]. rewrite normalize_cons, Hc. now rewrite IH.
Qed.

(** *** Whitespace is out of reach of the pattern *)

Lemma space_not_digit c : isspace c = true -> isdecimal c = false.
Proof. by_cases_on_char c. Qed.

Lemma take_digits_before a c b :
  isdecimal c = false -> take_digits (a ++ c :: b) = take_digits a.
Proof.
  intros Hc. induction a as [|x a IH]; simpl; [now rewrite Hc|].
  destruct (isdecimal x); [now rewrite IH | reflexivity].
Qed.

Lemma skip_digits_before a c b :
  isdecimal c = false -> skip_digits (a ++ c :: b) = skip_digits a ++ c :: b.
Proof.
  intros Hc. induction a as [|x a IH]; simpl; [now rewrite Hc|].
  destruct (isdecimal x); [assumption | reflexivity].
Qed.

Lemma match_here_before_space x a c b :
  isspace c = true ->
  match_here (x :: a ++ c :: b)
  = option_map (fun gr => (fst gr, snd gr ++ c :: b)) (match_here (x :: a)).
Proof.
  intros Hc. destruct (chr_eqb x ".") eqn:Ex.
  - apply chr_eqb_eq in Ex; subst x. rewrite !match_here_spec.
    rewrite take_digits_before, skip_digits_before by now apply space_not_digit.
    assert (Hw : starts_with_word (skip_digits a ++ c :: b)
                 = starts_with_word (skip_digits a)).
    { destruct (skip_digits a); [|reflexivity].
      unfold starts_with_word. simpl. now apply isspace_not_word. }
    rewrite Hw. now destruct (lazy_spec _ _ _).
  - now rewrite !match_here_not_point.
Qed.

Lemma normalize_at_space (a : str) : forall c b,
  isspace c = true ->
  _normalize_numbers (a ++ c :: b)
  = _normalize_numbers a ++ c :: _normalize_numbers b.
Proof.
  induction a as [| x a Hnone IH | x a g rest Hsome IH] using scan_ind;
    intros c b Hc.
  - simpl app. rewrite normalize_cons, match_here_not_point
      by now apply space_not_point.
    reflexivity.
  - simpl app. rewrite !normalize_cons, match_here_before_space, Hnone by assumption.
    simpl. now rewrite IH.
  - simpl app. rewrite !normalize_cons, match_here_before_space, Hsome by assumption.
    simpl option_map. cbn [fst snd]. rewrite IH by assumption. now rewrite <- app_assoc.
Qed.

End ReFacts.

(** ** [unmask_sentence] *)

Module UnmaskFacts.

Import Dict DictFacts NumberTag TagLoop InitFacts.

Lemma pass_unmask lookup l :
  pass (unmask_word lookup) l tt = Ok (map (unmask_one lookup) l, tt).
Proof.
  induction l as [|w r IH]; [reflexivity|].
  assert (Hb : unmask_word lookup w tt = Ok (get lookup w, tt))
    by (unfold unmask_word; now destruct (get lookup w)).
  cbn [pass map]. rewrite Hb, IH. unfold unmask_one.
  now destruct (get lookup w).
Qed.

Lemma unmask_sentence_spec nt text :
  unmask_sentence nt text
  = join (map (unmask_one (lookup_table nt)) (split text)).
Proof.
  unfold unmask_sentence. now rewrite for_enumerate_pass, pass_unmask.
Qed.

Lemma unmask_one_absent lookup w :
  ~ In w (keys lookup) -> unmask_one lookup w = w.
Proof.
  intros Hw. unfold unmask_one. apply get_none in Hw. now rewrite Hw.
Qed.

Lemma map_unmask_absent lookup words :
  (forall w, In w words -> ~ In w (keys lookup)) ->
  map (unmask_one lookup) words = words.
Proof.
  induction words as [|w r IH]; intros Hw; [reflexivity|].
  simpl. rewrite unmask_one_absent, IH; auto with datatypes.
Qed.

(** The values of the table are words of the sentence. *)
Lemma table_values_ok k nums w t :
  Forall is_word_of_split nums ->
  get (table_from k nums) w = Some t -> is_word_of_split t.
Proof.
  revert k. induction nums as [|n nums IH]; intros k Hn; [discriminate|].
  inversion Hn; subst. rewrite table_from_cons. cbn [get].
  destruct (str_eqb (tag k) w); [intros [= <-]; assumption | eauto].
Qed.

Lemma numeric_words_ok text : Forall is_word_of_split (numeric_words text).
Proof.
  unfold numeric_words. apply incl_Forall with (l1 := split text).
  - apply incl_filter.
  - apply split_words_ok.
Qed.

Lemma map_unmask_words_ok k nums words :
  Forall is_word_of_split nums -> Forall is_word_of_split words ->
  Forall is_word_of_split (map (unmask_one (table_from k nums)) words).
Proof.
  intros Hn Hw. induction Hw as [|w r Hw _ IH]; [constructor|].
  simpl. constructor; [|assumption].
  unfold unmask_one. destruct (get (table_from k nums) w) eqn:E; [|assumption].
  exact (table_values_ok k nums w _ Hn E).
Qed.

(** Unmasking the tagged words gives the words back, when none of the
    untouched words is itself a key of the table.  [pre] holds the numeric
    words met before [words]. *)
Lemma unmask_tagged_from words : forall pre,
  length pre + length (filter is_float words) <= 8 ->
  (forall w, In w words ->
     ~ In w (keys (table_from 0 (pre ++ filter is_float words)))) ->
  map (unmask_one (table_from 0 (pre ++ filter is_float words)))
      (tagged_from (length pre) words)
  = words.
Proof.
  induction words as [|w r IH]; intros pre Hlen Hfree; [reflexivity|].
  cbn [tagged_from filter] in *. destruct (is_float w) eqn:Hw.
  - cbn [map length] in *. f_equal.
    + unfold unmask_one.
      pose proof (table_from_get (pre ++ w :: filter is_float r) 0 (length pre))
        as Hget.
      cbn [Nat.add] in Hget. rewrite Hget.
      * rewrite nth_error_app2, Nat.sub_diag by lia. reflexivity.
      * rewrite length_app. simpl. lia.
      * rewrite length_app. simpl. lia.
    + replace (pre ++ w :: filter is_float r)
        with ((pre ++ [w]) ++ filter is_float r) in * by now rewrite <- app_assoc.
      replace (S (length pre)) with (length (pre ++ [w]))
        by (rewrite length_app; simpl; lia).
      apply IH.
      * rewrite length_app. simpl. lia.
      * intros w' Hin. apply Hfree. now right.
  - cbn [map]. f_equal.
    + apply unmask_one_absent, Hfree. now left.
    + apply IH; [assumption|]. intros w' Hin. apply Hfree. now right.
Qed.

End UnmaskFacts.

(** ** The claims *)

Import Dict NumberTag.

Lemma nodup_length_le (l : list str) : length (nodup str_dec l) <= length l.
Proof.
  induction l as [|w l IH]; simpl; [lia|].
  destruct (in_dec str_dec w l); simpl; lia.
Qed.

Lemma init_ok_table sentence equation nt :
  __init__ sentence equation = Ok nt ->
  lookup_table nt = table_from 0 (numeric_words (original_sentence nt))
  /\ length (numeric_words (original_sentence nt)) <= 8
  /\ original_sentence nt = _normalize_numbers sentence.
Proof.
  intros Hnt. apply InitFacts.init_ok in Hnt. cbv zeta in Hnt.
  destruct Hnt as (Hlen & Hos & _ & _ & _ & Htab). rewrite Hos. auto.
Qed.

(** C5. Number-format normalisation is idempotent: normalising a text that
    is already normalised gives the same text. *)
Theorem C5_normalize_idempotent (t : str) :
  _normalize_numbers (_normalize_numbers t) = _normalize_numbers t.
Proof. apply ReFacts.normalize_fixed, ReFacts.normalize_no_match. Qed.

(** C2, as stated, fails: nine occurrences of the one numeric word [1] are
    one distinct numeric word, within the alphabet size, and construction
    raises all the same. *)
Lemma C2_counterexample :
  ~ ((forall sentence equation,
        length _TAGS
          < length (nodup str_dec (numeric_words (_normalize_numbers sentence))) ->
        __init__ sentence equation = Raise IndexError)
     /\ (forall sentence equation,
           length (nodup str_dec (numeric_words (_normalize_numbers sentence)))
             <= length _TAGS ->
           __init__ sentence equation <> Raise IndexError)).
Proof.
  intros [_ Hwithin]. apply (Hwithin nine_ones []).
  - vm_compute. repeat constructor.
  - reflexivity.
Qed.

(** C2, amended. Construction raises [IndexError] (from indexing [_TAGS]
    past its end) exactly when the normalised sentence has more numeric word
    occurrences than the alphabet has symbols; in particular it raises when
    there are more distinct numeric words than symbols. *)
Theorem C2_raises_iff_alphabet_exhausted sentence equation :
  (__init__ sentence equation = Raise IndexError
   <-> length _TAGS < length (numeric_words (_normalize_numbers sentence)))
  /\ (length _TAGS
        < length (nodup str_dec (numeric_words (_normalize_numbers sentence)))
      -> __init__ sentence equation = Raise IndexError).
Proof.
  change (length _TAGS) with 8. split.
  - apply InitFacts.init_raise.
  - intros Hdistinct. apply InitFacts.init_raise.
    pose proof (nodup_length_le (numeric_words (_normalize_numbers sentence))).
    lia.
Qed.

(** C2 at nine occurrences of one number. *)
Lemma C2_witness : __init__ nine_ones [] = Raise IndexError.
Proof.
  apply (proj1 (C2_raises_iff_alphabet_exhausted nine_ones [])).
  vm_compute. repeat constructor.
Defined.

(** C10. Tags are allocated for each occurrence: after construction the
    table has one entry for each numeric word occurrence of the normalised
    sentence given, with pairwise different keys and those occurrences,
    repeated ones included, as its values; construction fails as soon as
    there is a ninth occurrence, as for nine occurrences of one number. *)
Theorem C10_one_tag_for_each_occurrence sentence equation :
  match __init__ sentence equation with
  | Ok nt =>
      original_sentence nt = _normalize_numbers sentence
      /\ length (lookup_table nt)
         = length (numeric_words (_normalize_numbers sentence))
      /\ values (lookup_table nt) = numeric_words (_normalize_numbers sentence)
      /\ NoDup (keys (lookup_table nt))
      /\ length (numeric_words (_normalize_numbers sentence)) <= 8
  | Raise e =>
      e = IndexError
      /\ 9 <= length (numeric_words (_normalize_numbers sentence))
  end
  /\ length (nodup str_dec (numeric_words (_normalize_numbers nine_ones))) = 1
  /\ __init__ nine_ones equation = Raise IndexError.
Proof.
  split; [|split; [reflexivity|];
    apply InitFacts.init_raise; vm_compute; repeat constructor].
  destruct (__init__ sentence equation) as [nt|e] eqn:Hnt.
  - destruct (init_ok_table _ _ _ Hnt) as (Htab & Hlen & Hos).
    rewrite Htab. rewrite Hos in *.
    rewrite TagLoop.table_from_length, TagLoop.table_from_values.
    repeat split; [|assumption].
    now apply InitFacts.table_from_keys_nodup.
  - destruct e. split; [reflexivity|].
    now apply (proj1 (InitFacts.init_raise sentence equation)).
Qed.

(** C8, as stated, fails: a sentence without numbers but with two spaces
    in a row is masked to the single-spaced sentence, which is not the
    original. *)
Lemma C8_counterexample :
  ~ (forall sentence equation,
       numeric_words sentence = [] ->
       numeric_words (_normalize_numbers sentence) = [] ->
       exists nt,
         __init__ sentence equation = Ok nt
         /\ lookup_table nt = []
         /\ fst (get_masked nt) = fst (get_originals nt)).
Proof.
  intros Hclaim.
  destruct (Hclaim (s "a  b") [] eq_refl eq_refl) as (nt & Hnt & _ & Heq).
  vm_compute in Hnt. injection Hnt as <-. discriminate Heq.
Qed.

(** The words [float] is tried on are those of the normalised sentence:
    [1.0.0] is no number, and normalisation turns it into [1], which is. *)
Lemma normalization_can_make_a_number :
  numeric_words (s "1.0.0") = []
  /\ numeric_words (_normalize_numbers (s "1.0.0")) = [s "1"]
  /\ exists nt,
       __init__ (s "1.0.0") [] = Ok nt
       /\ lookup_table nt = [(s "<x>", s "1")]
       /\ get_masked nt = (s "<x>", []).
Proof.
  split; [reflexivity|]. split; [reflexivity|].
  eexists. split; [reflexivity|]. split; reflexivity.
Qed.

(** C8, amended. When the normalised sentence has no numeric word,
    construction succeeds, the table is empty and the masked sentence is the
    single-space join of the words of the original (normalised) sentence. *)
Theorem C8_no_numeric_word sentence equation :
  numeric_words (_normalize_numbers sentence) = [] ->
  exists nt,
    __init__ sentence equation = Ok nt
    /\ lookup_table nt = []
    /\ fst (get_masked nt) = join (split (fst (get_originals nt))).
Proof.
  intros Hnone. rewrite InitFacts.init_spec. cbv zeta. rewrite Hnone.
  eexists. split; [reflexivity|]. split; [reflexivity|]. simpl.
  now rewrite InitFacts.tagged_from_no_numeric.
Qed.

(** C8 at a sentence without numbers and with two spaces in a row. *)
Lemma C8_witness :
  exists nt,
    __init__ (s "a  b") (s "x = 1") = Ok nt
    /\ lookup_table nt = []
    /\ fst (get_masked nt) = join (split (fst (get_originals nt))).
Proof. apply C8_no_numeric_word. reflexivity. Defined.

(** *** Round trip and tag occurrences *)

(** C1, as stated, fails: the masked sentence is single-spaced, so
    unmasking it cannot give back an original with two spaces in a row. *)
Lemma C1_counterexample :
  ~ (forall sentence equation nt,
       __init__ sentence equation = Ok nt ->
       unmask_sentence nt (fst (get_masked nt)) = fst (get_originals nt)).
Proof.
  intros Hclaim.
  pose proof (Hclaim (s "a  b") [] _ eq_refl) as Heq.
  vm_compute in Heq. discriminate Heq.
Qed.

(** A second way for the round trip to fail, on a single-spaced sentence: a
    word of the sentence that is itself a tag is unmasked as well. *)
Lemma unmask_literal_tag :
  exists nt,
    __init__ (s "<y> 1 2") [] = Ok nt
    /\ fst (get_originals nt) = s "<y> 1 2"
    /\ fst (get_masked nt) = s "<y> <x> <y>"
    /\ unmask_sentence nt (fst (get_masked nt)) = s "2 1 2".
Proof. eexists. split; [reflexivity|]. repeat split. Qed.

(** C1, amended. When construction succeeds and no word of the normalised
    sentence is itself a key of the table, unmasking the masked sentence
    gives the single-space join of the words of the original sentence. *)
Theorem C1_unmask_masked_sentence sentence equation nt :
  __init__ sentence equation = Ok nt ->
  (forall w, In w (split (original_sentence nt)) ->
             ~ In w (keys (lookup_table nt))) ->
  unmask_sentence nt (fst (get_masked nt))
  = join (split (fst (get_originals nt))).
Proof.
  intros Hnt Hfree.
  destruct (init_ok_table _ _ _ Hnt) as (Htab & Hlen & Hos).
  apply InitFacts.init_ok in Hnt. cbv zeta in Hnt.
  destruct Hnt as (_ & _ & _ & Hts & _ & _).
  unfold get_masked, get_originals. cbn [fst].
  rewrite UnmaskFacts.unmask_sentence_spec, Hts, <- Hos.
  rewrite InitFacts.split_tagged_sentence, Htab. f_equal.
  rewrite Htab in Hfree.
  apply (UnmaskFacts.unmask_tagged_from (split (original_sentence nt)) []);
    assumption.
Qed.

Ltac no_word_is_a_key :=
  let w := fresh "w" in
  let Hin := fresh "Hin" in
  let Hkey := fresh "Hkey" in
  intros w Hin Hkey; simpl in Hin, Hkey;
  repeat (destruct Hin as [<-|Hin]; [intuition discriminate|]);
  exact Hin.

(** C1 at the class doctest. *)
Lemma C1_witness :
  unmask_sentence doctest_instance (fst (get_masked doctest_instance))
  = join (split (fst (get_originals doctest_instance))).
Proof.
  apply (C1_unmask_masked_sentence doctest_sentence doctest_equation).
  - reflexivity.
  - no_word_is_a_key.
Defined.

(** C4, as stated, fails: when the sentence holds the literal word [<x>]
    and a number, the tag [<x>] stands twice in the masked sentence. *)
Lemma C4_counterexample :
  ~ (forall sentence equation nt,
       __init__ sentence equation = Ok nt ->
       forall k, In k (keys (lookup_table nt)) ->
                 occurrences k (split (tagged_sentence nt)) = 1).
Proof.
  intros Hclaim.
  pose proof (Hclaim (s "<x> 1") [] _ eq_refl (s "<x>") (or_introl eq_refl))
    as Hone.
  vm_compute in Hone. discriminate Hone.
Qed.

Lemma occurrences_cons w w' words :
  occurrences w (w' :: words)
  = (if str_eqb w' w then 1 else 0) + occurrences w words.
Proof.
  unfold occurrences. simpl. unfold str_eqb.
  change (list_eq_dec ascii_dec w' w) with (str_dec w' w).
  now destruct (str_dec w' w).
Qed.

(** How often the tag [i] stands among the tagged words, when none of the
    words is that tag to begin with. *)
Lemma occurrences_tagged_from i words : forall k,
  i < 8 ->
  k + length (filter is_float words) <= 8 ->
  (forall w, In w words -> w <> tag i) ->
  occurrences (tag i) (tagged_from k words)
  = if (k <=? i) && (i <? k + length (filter is_float words)) then 1 else 0.
Proof.
  induction words as [|w r IH]; intros k Hi Hk Hfree.
  - simpl. rewrite Nat.add_0_r.
    destruct (Nat.leb_spec k i), (Nat.ltb_spec i k); simpl; try reflexivity; lia.
  - cbn [tagged_from filter] in *. destruct (is_float w) eqn:Hw.
    + cbn [length] in *. rewrite occurrences_cons, IH; auto with datatypes; [|lia].
      destruct (str_eqb (tag k) (tag i)) eqn:E.
      * apply str_eqb_eq, tag_inj in E; [subst k | lia | lia].
        destruct (Nat.leb_spec (S i) i); [lia|].
        destruct (Nat.leb_spec i i); [|lia].
        destruct (Nat.ltb_spec i (i + S (length (filter is_float r)))); [|lia].
        reflexivity.
      * apply str_eqb_neq in E. assert (k <> i) by congruence.
        destruct (Nat.leb_spec (S k) i), (Nat.leb_spec k i),
          (Nat.ltb_spec i (S k + length (filter is_float r))),
          (Nat.ltb_spec i (k + S (length (filter is_float r))));
          simpl; try reflexivity; lia.
    + rewrite occurrences_cons, IH; auto with datatypes.
      destruct (str_eqb w (tag i)) eqn:E; [|reflexivity].
      apply str_eqb_eq in E. exfalso. apply (Hfree w); auto with datatypes.
Qed.

(** C4, amended. In a constructed instance where no word of the normalised
    sentence is itself a key of the table, every key of the table occurs
    exactly once among the words of the masked sentence. *)
Theorem C4_each_tag_once sentence equation nt :
  __init__ sentence equation = Ok nt ->
  (forall w, In w (split (original_sentence nt)) ->
             ~ In w (keys (lookup_table nt))) ->
  forall k, In k (keys (lookup_table nt)) ->
            occurrences k (split (tagged_sentence nt)) = 1.
Proof.
  intros Hnt Hfree k Hk.
  destruct (init_ok_table _ _ _ Hnt) as (Htab & Hlen & Hos).
  apply InitFacts.init_ok in Hnt. cbv zeta in Hnt.
  destruct Hnt as (_ & _ & _ & Hts & _ & _).
  rewrite Hts, <- Hos, InitFacts.split_tagged_sentence.
  rewrite Htab, TagLoop.table_from_keys in Hk.
  apply in_map_iff in Hk as (i & <- & Hi). apply in_seq in Hi.
  rewrite occurrences_tagged_from.
  - unfold numeric_words in Hi.
    destruct (Nat.leb_spec 0 i); [|lia].
    destruct (Nat.ltb_spec i (0 + length (filter is_float (split (original_sentence nt)))));
      [reflexivity | lia].
  - lia.
  - exact Hlen.
  - intros w Hin Heq. apply (Hfree w Hin). rewrite Htab, TagLoop.table_from_keys.
    apply in_map_iff. exists i. split; [congruence|]. apply in_seq. lia.
Qed.

(** C4 at the class doctest, for the tag of its second number. *)
Lemma C4_witness :
  occurrences (s "<y>") (split (tagged_sentence doctest_instance)) = 1.
Proof.
  apply (C4_each_tag_once doctest_sentence doctest_equation).
  - reflexivity.
  - no_word_is_a_key.
  - simpl. auto.
Defined.

(** *** Tag allocation *)

Lemma filter_rank (words : list str) : forall p w,
  nth_error words p = Some w -> is_float w = true ->
  nth_error (filter is_float words)
            (length (filter is_float (firstn p words))) = Some w.
Proof.
  induction words as [|w0 r IH]; intros p w Hp Hw; [now destruct p|].
  destruct p as [|p]; simpl in Hp.
  - injection Hp as ->. simpl. now rewrite Hw.
  - cbn [firstn filter]. destruct (is_float w0); simpl; now apply IH.
Qed.

(** C6. When construction succeeds for a sentence, the keys of the table
    are pairwise different, the table has one entry for each numeric word
    of the normalised sentence, and a numeric word of that sentence that has
    [i] numeric words to its left takes the tag built from the [i]-th symbol
    of the alphabet x, y, z, j, q, v, w, r: that tag stands at the word's
    place in the masked sentence and is the key of entry [i] of the table,
    whose value is the word. *)
Theorem C6_tags_follow_alphabet_order sentence equation nt :
  __init__ sentence equation = Ok nt ->
  _TAGS = map (fun c => [c]) (s "xyzjqvwr")
  /\ original_sentence nt = _normalize_numbers sentence
  /\ NoDup (keys (lookup_table nt))
  /\ length (lookup_table nt)
     = length (numeric_words (_normalize_numbers sentence))
  /\ forall p w,
       nth_error (split (_normalize_numbers sentence)) p = Some w ->
       is_float w = true ->
       exists sym,
         nth_error _TAGS
           (length (filter is_float
                      (firstn p (split (_normalize_numbers sentence)))))
         = Some sym
         /\ nth_error (lookup_table nt)
              (length (filter is_float
                         (firstn p (split (_normalize_numbers sentence)))))
            = Some (s "<" ++ sym ++ s ">", w)
         /\ nth_error (split (tagged_sentence nt)) p
            = Some (s "<" ++ sym ++ s ">").
Proof.
  intros Hnt.
  destruct (init_ok_table _ _ _ Hnt) as (Htab & Hlen & Hos).
  apply InitFacts.init_ok in Hnt. cbv zeta in Hnt.
  destruct Hnt as (_ & _ & _ & Hts & _ & _).
  rewrite Htab, Hts, InitFacts.split_tagged_sentence. rewrite Hos in *.
  split; [reflexivity|]. split; [reflexivity|].
  split; [now apply InitFacts.table_from_keys_nodup|].
  split; [apply TagLoop.table_from_length|].
  intros p w Hp Hw.
  pose proof (filter_rank _ _ _ Hp Hw) as Hrank.
  set (i := length (filter is_float
                      (firstn p (split (_normalize_numbers sentence))))) in *.
  assert (Hi : i < 8).
  { apply Nat.lt_le_trans with (2 := Hlen).
    apply nth_error_Some. unfold numeric_words. congruence. }
  destruct (tags_nth_error i Hi) as (sym & Hsym & Htag).
  exists sym. rewrite Htag. split; [assumption|]. split.
  - rewrite InitFacts.table_from_nth. unfold numeric_words. now rewrite Hrank.
  - rewrite (InitFacts.tagged_from_nth _ 0 _ _ Hp), Hw. reflexivity.
Qed.

(** C6 at the class doctest: the second number, at place 5, takes [y]. *)
Lemma C6_witness :
  exists sym,
    nth_error _TAGS 1 = Some sym
    /\ nth_error (lookup_table doctest_instance) 1 = Some (s "<" ++ sym ++ s ">", s "1.5")
    /\ nth_error (split (tagged_sentence doctest_instance)) 5
       = Some (s "<" ++ sym ++ s ">").
Proof.
  apply (proj2 (proj2 (proj2 (proj2 (C6_tags_follow_alphabet_order
                                       doctest_sentence doctest_equation
                                       doctest_instance eq_refl))))
           5 (s "1.5"));
    reflexivity.
Defined.

(** *** The masked equation *)

Lemma existsb_str_eqb w (l : list str) :
  existsb (str_eqb w) l = true <-> In w l.
Proof.
  rewrite existsb_exists. split.
  - intros (x & Hx & E). apply str_eqb_eq in E. now subst.
  - intros Hin. exists w. split; [assumption | apply str_eqb_refl].
Qed.

Lemma existsb_str_eqb_false w (l : list str) :
  ~ In w l -> existsb (str_eqb w) l = false.
Proof.
  intros Hout. destruct (existsb (str_eqb w) l) eqn:E; [|reflexivity].
  apply existsb_str_eqb in E. contradiction.
Qed.

Lemma once_is_last (nums : list str) i w :
  nth_error nums i = Some w -> occurrences w nums = 1 ->
  ~ In w (skipn (S i) nums).
Proof.
  intros Hi Hone.
  destruct (AdjustFacts.nth_error_split_at _ _ _ Hi) as [Hsplit _].
  unfold occurrences in Hone.
  rewrite Hsplit, count_occ_app, count_occ_cons_eq in Hone by reflexivity.
  apply (count_occ_not_In str_dec). lia.
Qed.

Lemma later_occurrence (nums : list str) : forall i' i w,
  i' < i -> nth_error nums i = Some w -> In w (skipn (S i') nums).
Proof.
  induction nums as [|h r IH]; intros i' i w Hlt Hi; [now destruct i|].
  destruct i as [|i]; [lia|]. simpl in Hi.
  destruct i' as [|i'].
  - simpl. now apply nth_error_In with i.
  - apply (IH i' i); [lia | assumption].
Qed.

(** The words of the masked equation. *)
Lemma masked_equation_words sentence equation nt :
  __init__ sentence equation = Ok nt ->
  let ad := invert (table_from 0 (numeric_words (original_sentence nt))) in
  let ew := split (original_equation nt) in
  split (tagged_equation nt) = adjusted ad ew
  /\ tagged_equation nt = join (adjusted ad ew)
  /\ forall j w,
       nth_error ew j = Some w ->
       nth_error (adjusted ad ew) j
       = Some (if existsb (str_eqb w) (firstn j ew) then w else unmask_one ad w).
Proof.
  intros Hnt.
  destruct (init_ok_table _ _ _ Hnt) as (Htab & Hlen & Hos).
  apply InitFacts.init_ok in Hnt. cbv zeta in Hnt.
  destruct Hnt as (_ & _ & Hoe & _ & Hte & _).
  cbv zeta. rewrite Hte, <- Hoe, <- Hos.
  rewrite AdjustFacts.split_tagged_equation.
  repeat split. intros j w Hj.
  apply AdjustFacts.adjusted_nth; [apply AdjustFacts.invert_nodup | assumption].
Qed.

Lemma table_entry nums i t w :
  nth_error (table_from 0 nums) i = Some (t, w) ->
  t = tag i /\ nth_error nums i = Some w.
Proof.
  rewrite InitFacts.table_from_nth. destruct (nth_error nums i); [|discriminate].
  now intros [= <- <-].
Qed.

Lemma once_index_unique (nums : list str) i i' w :
  occurrences w nums = 1 ->
  nth_error nums i = Some w -> nth_error nums i' = Some w -> i = i'.
Proof.
  intros Honce Hi Hi'.
  destruct (Nat.lt_trichotomy i i') as [Hlt|[Heq|Hgt]]; [|assumption|].
  - exfalso. apply (once_is_last nums i w Hi Honce).
    now apply later_occurrence with i'.
  - exfalso. apply (once_is_last nums i' w Hi' Honce).
    now apply later_occurrence with i.
Qed.

(** What construction gives, in terms of the sentence and the equation
    given. *)
Lemma init_ok_inputs sentence equation nt :
  __init__ sentence equation = Ok nt ->
  original_sentence nt = _normalize_numbers sentence
  /\ original_equation nt = _normalize_numbers equation
  /\ length (numeric_words (_normalize_numbers sentence)) <= 8
  /\ lookup_table nt = table_from 0 (numeric_words (_normalize_numbers sentence))
  /\ split (tagged_sentence nt)
     = tagged_from 0 (split (_normalize_numbers sentence))
  /\ split (tagged_equation nt)
     = adjusted (invert (table_from 0 (numeric_words (_normalize_numbers sentence))))
                (split (_normalize_numbers equation))
  /\ tagged_equation nt = join (split (tagged_equation nt)).
Proof.
  intros Hnt.
  destruct (masked_equation_words _ _ _ Hnt) as (Hsplit & Hjoin & _).
  apply InitFacts.init_ok in Hnt. cbv zeta in Hnt.
  destruct Hnt as (Hlen & Hos & Hoe & Hts & _ & Htab).
  rewrite Hos, Hoe in Hsplit. rewrite Hsplit, Hts.
  rewrite InitFacts.split_tagged_sentence. rewrite Hjoin at 1.
  rewrite Hos, Hoe. auto 10.
Qed.

(** C3. Let construction succeed for a sentence and an equation, and take
    a word [w] at place [j] of the normalised equation.  If [w] is the
    [i]-th numeric word of the normalised sentence, occurs only once among
    them, and [j] is its first place in the equation, then the masked
    equation holds at place [j] that number's tag: the tag built from the
    [i]-th symbol of [_TAGS], which is the key of entry [i] of the table
    with value [w] and stands wherever [w] stood in the sentence.  If [w]
    stood at an earlier place of the equation (its reverse-map entry is
    consumed), or is no numeric word of the sentence, the masked equation
    holds [w] itself at place [j]. *)
Theorem C3_equation_words sentence equation nt :
  __init__ sentence equation = Ok nt ->
  tagged_equation nt = join (split (tagged_equation nt))
  /\ length (split (tagged_equation nt))
     = length (split (_normalize_numbers equation))
  /\ forall j w,
       nth_error (split (_normalize_numbers equation)) j = Some w ->
       (forall i,
          nth_error (numeric_words (_normalize_numbers sentence)) i = Some w ->
          occurrences w (numeric_words (_normalize_numbers sentence)) = 1 ->
          ~ In w (firstn j (split (_normalize_numbers equation))) ->
          exists sym,
            nth_error _TAGS i = Some sym
            /\ nth_error (split (tagged_equation nt)) j
               = Some (s "<" ++ sym ++ s ">")
            /\ nth_error (lookup_table nt) i = Some (s "<" ++ sym ++ s ">", w)
            /\ forall p,
                 nth_error (split (_normalize_numbers sentence)) p = Some w ->
                 nth_error (split (tagged_sentence nt)) p
                 = Some (s "<" ++ sym ++ s ">"))
       /\ (In w (firstn j (split (_normalize_numbers equation))) ->
           nth_error (split (tagged_equation nt)) j = Some w)
       /\ (~ In w (numeric_words (_normalize_numbers sentence)) ->
           nth_error (split (tagged_equation nt)) j = Some w).
Proof.
  intros Hnt.
  destruct (init_ok_inputs _ _ _ Hnt)
    as (_ & _ & Hlen & Htab & Hts & Hte & Hjoin).
  split; [assumption|]. rewrite Hte, Hts, Htab.
  split; [apply AdjustFacts.adjusted_length|].
  intros j w Hj.
  rewrite (AdjustFacts.adjusted_nth _ _ _ _ (AdjustFacts.invert_nodup _) Hj).
  repeat split.
  - intros i Hi Honce Hfirst.
    assert (Hi8 : i < 8).
    { apply Nat.lt_le_trans with (2 := Hlen). apply nth_error_Some. congruence. }
    destruct (tags_nth_error i Hi8) as (sym & Hsym & Htag).
    exists sym. rewrite Htag. split; [assumption|]. split; [|split].
    + rewrite existsb_str_eqb_false by assumption. unfold unmask_one.
      rewrite (AdjustFacts.invert_table_last _ _ _ Hi); [reflexivity|].
      now apply once_is_last.
    + rewrite InitFacts.table_from_nth, Hi. reflexivity.
    + intros p Hp.
      assert (Hw : is_float w = true).
      { apply nth_error_In in Hi. unfold numeric_words in Hi.
        now apply filter_In in Hi. }
      rewrite (InitFacts.tagged_from_nth _ 0 _ _ Hp), Hw. cbn [Nat.add].
      do 2 f_equal. apply (once_index_unique _ _ _ w Honce); [|assumption].
      now apply filter_rank.
  - intros Hseen. apply existsb_str_eqb in Hseen. now rewrite Hseen.
  - intros Hout. unfold unmask_one.
    rewrite AdjustFacts.invert_table_absent by assumption.
    now destruct (existsb (str_eqb w) _).
Qed.

(** C3 at the class doctest: [123], the first number of the sentence,
    stands at place 2 of the equation, which gets [<x>] there. *)
Lemma C3_witness :
  exists sym,
    nth_error _TAGS 0 = Some sym
    /\ nth_error (split (tagged_equation doctest_instance)) 2
       = Some (s "<" ++ sym ++ s ">")
    /\ nth_error (lookup_table doctest_instance) 0
       = Some (s "<" ++ sym ++ s ">", s "123")
    /\ forall p,
         nth_error (split (_normalize_numbers doctest_sentence)) p
         = Some (s "123") ->
         nth_error (split (tagged_sentence doctest_instance)) p
         = Some (s "<" ++ sym ++ s ">").
Proof.
  apply (proj1 (proj2 (proj2 (C3_equation_words
                                doctest_sentence doctest_equation
                                doctest_instance eq_refl))
                  2 (s "123") eq_refl) 0).
  - reflexivity.
  - reflexivity.
  - simpl. intuition discriminate.
Defined.

(** C7. Let construction succeed for a sentence and an equation, and let
    the [i]-th numeric word of the normalised sentence be the last one with
    the text [w].  Then entry [i] of the table pairs the tag of the [i]-th
    symbol of [_TAGS] with [w]; the reverse map built from the table holds
    that tag for [w]; the first place of [w] in the normalised equation
    holds that tag in the masked equation; and every earlier numeric word
    with the same text [w] has a tag of its own in the table, different from
    that one, which stands in the masked equation only where the equation
    already held it as a word. *)
Theorem C7_last_occurrence_wins sentence equation nt :
  __init__ sentence equation = Ok nt ->
  forall i w,
    nth_error (numeric_words (_normalize_numbers sentence)) i = Some w ->
    ~ In w (skipn (S i) (numeric_words (_normalize_numbers sentence))) ->
    exists sym,
      nth_error _TAGS i = Some sym
      /\ nth_error (lookup_table nt) i = Some (s "<" ++ sym ++ s ">", w)
      /\ get (invert (lookup_table nt)) w = Some (s "<" ++ sym ++ s ">")
      /\ (forall j,
            nth_error (split (_normalize_numbers equation)) j = Some w ->
            ~ In w (firstn j (split (_normalize_numbers equation))) ->
            nth_error (split (tagged_equation nt)) j
            = Some (s "<" ++ sym ++ s ">"))
      /\ (forall i',
            i' < i ->
            nth_error (numeric_words (_normalize_numbers sentence)) i' = Some w ->
            exists sym',
              nth_error _TAGS i' = Some sym'
              /\ nth_error (lookup_table nt) i'
                 = Some (s "<" ++ sym' ++ s ">", w)
              /\ s "<" ++ sym' ++ s ">" <> s "<" ++ sym ++ s ">"
              /\ forall j,
                   nth_error (split (tagged_equation nt)) j
                   = Some (s "<" ++ sym' ++ s ">") ->
                   nth_error (split (_normalize_numbers equation)) j
                   = Some (s "<" ++ sym' ++ s ">")).
Proof.
  intros Hnt i w Hi Hlast.
  destruct (init_ok_inputs _ _ _ Hnt)
    as (_ & _ & Hlen & Htab & _ & Hte & _).
  rewrite Hte, Htab.
  set (nums := numeric_words (_normalize_numbers sentence)) in *.
  set (ew := split (_normalize_numbers equation)) in *.
  assert (Hlt8 : forall k v, nth_error nums k = Some v -> k < 8).
  { intros k v Hk. apply Nat.lt_le_trans with (2 := Hlen).
    apply nth_error_Some. congruence. }
  destruct (tags_nth_error i (Hlt8 _ _ Hi)) as (sym & Hsym & Htag).
  pose proof (AdjustFacts.invert_table_last _ _ _ Hi Hlast) as Hrev.
  assert (Hnth : forall j v, nth_error ew j = Some v ->
            nth_error (adjusted (invert (table_from 0 nums)) ew) j
            = Some (if existsb (str_eqb v) (firstn j ew) then v
                    else unmask_one (invert (table_from 0 nums)) v)).
  { intros j v Hj.
    apply AdjustFacts.adjusted_nth; [apply AdjustFacts.invert_nodup | assumption]. }
  exists sym. rewrite Htag. split; [assumption|].
  split; [rewrite InitFacts.table_from_nth, Hi; reflexivity|].
  split; [assumption|]. split.
  - intros j Hj Hfirst. rewrite (Hnth j w Hj).
    rewrite existsb_str_eqb_false by assumption.
    unfold unmask_one. now rewrite Hrev.
  - intros i' Hlt Hi'.
    destruct (tags_nth_error i' (Hlt8 _ _ Hi')) as (sym' & Hsym' & Htag').
    exists sym'. rewrite Htag'. split; [assumption|].
    split; [rewrite InitFacts.table_from_nth, Hi'; reflexivity|].
    split.
    { intros Heq. apply tag_inj in Heq; eauto. lia. }
    intros j Hj.
    assert (Hlen' : j < length ew).
    { rewrite <- (AdjustFacts.adjusted_length ew (invert (table_from 0 nums))).
      apply nth_error_Some. congruence. }
    destruct (nth_error ew j) as [w0|] eqn:Hw0;
      [|apply nth_error_None in Hw0; lia].
    rewrite (Hnth j w0 Hw0) in Hj. injection Hj as Hj.
    destruct (existsb (str_eqb w0) _); [now rewrite Hj|].
    unfold unmask_one in Hj.
    destruct (get (invert (table_from 0 nums)) w0) as [t0|] eqn:Hget;
      [|now rewrite Hj].
    apply AdjustFacts.invert_table_some in Hget as (i0 & -> & Hi0 & Hlast0).
    exfalso.
    assert (i0 = i') by (apply tag_inj; eauto).
    subst i0. assert (w0 = w) by congruence. subst w0.
    apply Hlast0. now apply later_occurrence with i.
Qed.

(** C7 at a sentence that holds [2] twice: the equation gets [<y>], the
    tag of the second [2], at the first place of [2]. *)
Lemma C7_witness :
  exists sym,
    nth_error _TAGS 1 = Some sym
    /\ get (invert (lookup_table repeat_instance)) (s "2")
       = Some (s "<" ++ sym ++ s ">")
    /\ nth_error (split (tagged_equation repeat_instance)) 2
       = Some (s "<" ++ sym ++ s ">").
Proof.
  destruct (C7_last_occurrence_wins repeat_sentence repeat_equation
              repeat_instance eq_refl 1 (s "2") eq_refl)
    as (sym & Hsym & _ & Hrev & Hfirst & _).
  - simpl. intuition discriminate.
  - exists sym. split; [exact Hsym|]. split; [exact Hrev|].
    apply Hfirst; [reflexivity|]. simpl. intuition discriminate.
Defined.

(** *** Whitespace *)

Lemma adjusted_absent ew : forall ad,
  (forall w, In w ew -> get ad w = None) -> adjusted ad ew = ew.
Proof.
  induction ew as [|w r IH]; intros ad Habs; [reflexivity|].
  rewrite AdjustFacts.adjusted_cons. unfold unmask_one, after_word.
  rewrite (Habs w) by now left. f_equal. apply IH.
  intros w' Hin. apply Habs. now right.
Qed.

(** C9. In a constructed instance the masked sentence, the masked equation
    and every result of [unmask_sentence] are single-space joins of as many
    words as their source text has, so each is the single-space join of its
    own words; when nothing is substituted each is the single-space join of
    the words of its source.  The originals are the normalised inputs, and
    normalisation leaves every whitespace character in its place: it works
    on the text before and the text after it separately. *)
Theorem C9_masked_text_is_single_spaced sentence equation nt :
  __init__ sentence equation = Ok nt ->
  (join (split (tagged_sentence nt)) = tagged_sentence nt
   /\ length (split (tagged_sentence nt)) = length (split (original_sentence nt))
   /\ (numeric_words (original_sentence nt) = [] ->
       tagged_sentence nt = join (split (original_sentence nt))))
  /\ (join (split (tagged_equation nt)) = tagged_equation nt
      /\ length (split (tagged_equation nt))
         = length (split (original_equation nt))
      /\ ((forall w, In w (split (original_equation nt)) ->
                     ~ In w (values (lookup_table nt))) ->
          tagged_equation nt = join (split (original_equation nt))))
  /\ (forall text,
        join (split (unmask_sentence nt text)) = unmask_sentence nt text
        /\ length (split (unmask_sentence nt text)) = length (split text)
        /\ ((forall w, In w (split text) -> ~ In w (keys (lookup_table nt))) ->
            unmask_sentence nt text = join (split text)))
  /\ original_sentence nt = _normalize_numbers sentence
  /\ original_equation nt = _normalize_numbers equation
  /\ (forall a c b,
        isspace c = true ->
        _normalize_numbers (a ++ c :: b)
        = _normalize_numbers a ++ c :: _normalize_numbers b).
Proof.
  intros Hnt.
  destruct (init_ok_table _ _ _ Hnt) as (Htab & Hlen & Hos).
  destruct (masked_equation_words _ _ _ Hnt) as (Hsplit & Hjoin & _).
  apply InitFacts.init_ok in Hnt. cbv zeta in Hnt.
  destruct Hnt as (_ & _ & Hoe & Hts & _ & _).
  rewrite <- Hos in Hts.
  assert (Hwords : forall text,
             Forall is_word_of_split
               (map (unmask_one (table_from 0 (numeric_words (original_sentence nt))))
                    (split text))).
  { intros text. apply UnmaskFacts.map_unmask_words_ok;
      [apply UnmaskFacts.numeric_words_ok | apply split_words_ok]. }
  split; [|split; [|split; [|split; [|split]]]].
  - split; [|split].
    + rewrite Hts at 1. rewrite InitFacts.split_tagged_sentence. now rewrite Hts.
    + rewrite Hts, InitFacts.split_tagged_sentence.
      apply InitFacts.tagged_from_length.
    + intros Hnone. rewrite Hts.
      now rewrite InitFacts.tagged_from_no_numeric.
  - split; [|split].
    + rewrite Hsplit. now rewrite <- Hjoin.
    + rewrite Hsplit. apply AdjustFacts.adjusted_length.
    + intros Hnone. rewrite Hjoin. f_equal. apply adjusted_absent.
      intros w Hin. apply AdjustFacts.invert_table_absent.
      rewrite <- (TagLoop.table_from_values
                    (numeric_words (original_sentence nt)) 0), <- Htab.
      now apply Hnone.
  - intros text. rewrite UnmaskFacts.unmask_sentence_spec, Htab.
    rewrite split_join by apply Hwords. split; [reflexivity|].
    split; [apply length_map|].
    intros Hnone. now rewrite UnmaskFacts.map_unmask_absent.
  - assumption.
  - assumption.
  - intros a c b Hc. now apply ReFacts.normalize_at_space.
Qed.

(** C9 at the class doctest. *)
Lemma C9_witness :
  join (split (tagged_sentence doctest_instance)) = tagged_sentence doctest_instance
  /\ join (split (tagged_equation doctest_instance)) = tagged_equation doctest_instance.
Proof.
  destruct (C9_masked_text_is_single_spaced doctest_sentence doctest_equation
              doctest_instance eq_refl)
    as ((Hs & _) & (He & _) & _).
  split; [exact Hs | exact He].
Defined.

(** ** Further properties of [_normalize_numbers] *)

Module NormalizeMore.

Import Re ReFacts.

Lemma zeros_all_zero n : forallb (fun c => chr_eqb c "0") (zeros n) = true.
Proof. induction n as [|n IH]; [reflexivity | exact IH]. Qed.

Lemma all_zero_is_zeros z :
  forallb (fun c => chr_eqb c "0") z = true -> z = zeros (length z).
Proof.
  induction z as [|c z IH]; intros Hz; [reflexivity|].
  simpl in Hz. apply andb_prop in Hz as [Hc Hz].
  apply chr_eqb_eq in Hc. subst c. simpl. unfold zeros in *. simpl.
  now rewrite <- IH.
Qed.

(** A match is a point, the group, at least one zero, and then the rest. *)
Lemma match_here_shape c t g rest :
  match_here (c :: t) = Some (g, rest) ->
  c = "."%char
  /\ exists n, t = g ++ zeros (S n) ++ rest
            /\ Forall (fun d => isdecimal d = true) g
            /\ boundary_follows rest.
Proof.
  intros Hm. pose proof Hm as Hm'.
  apply match_here_some in Hm' as (-> & -> & Hw & _ & _).
  split; [reflexivity|].
  rewrite match_here_spec in Hm.
  destruct (lazy_spec [] (take_digits t) (starts_with_word (skip_digits t)))
    as [g'|] eqn:El; [|discriminate].
  injection Hm as ->.
  apply lazy_spec_some in El as (p & z & -> & Ht & _ & Hz & _).
  cbn [app]. apply zeros_ok_false_iff in Hz as [Hne Hz].
  apply all_zero_is_zeros in Hz.
  destruct z as [|z0 z]; [contradiction|].
  exists (length z). split; [|split; [|exact Hw]].
  - change (zeros (S (length z))) with (zeros (length (z0 :: z))).
    rewrite <- Hz, app_assoc, <- Ht. apply take_skip_digits.
  - now apply digits_prefix with (z := z0 :: z) (t := t).
Qed.

Lemma normalize_without_point p u :
  ~ In "."%char p ->
  _normalize_numbers (p ++ u) = p ++ _normalize_numbers u.
Proof.
  induction p as [|c p IH]; intros Hp; [reflexivity|].
  simpl app. rewrite normalize_cons, match_here_not_point.
  - rewrite IH; [reflexivity|]. intros Hin. apply Hp. now right.
  - destruct (chr_eqb c ".") eqn:E; [|reflexivity].
    apply chr_eqb_eq in E. exfalso. apply Hp. now left.
Qed.

Lemma no_match_suffix a : forall b, no_match (a ++ b) -> no_match b.
Proof.
  induction a as [|c a IH]; intros b H; [assumption|].
  destruct H as [_ H]. now apply IH.
Qed.

Lemma no_match_head b : no_match b -> match_here b = None.
Proof. destruct b; [reflexivity | now intros [H _]]. Qed.

(** X1. The pattern matches nowhere in the result of [_normalize_numbers]:
    whatever suffix of the result one takes, no match starts there. *)
Theorem X1_no_match_left_in_result (t a b : str) :
  _normalize_numbers t = a ++ b -> match_here b = None.
Proof.
  intros Hsplit. apply no_match_head, (no_match_suffix a).
  rewrite <- Hsplit. apply normalize_no_match.
Qed.

Lemma X1_witness : match_here (s ".5 and 7") = None.
Proof.
  apply (X1_no_match_left_in_result (s "12.50 and 7.000") (s "12")).
  reflexivity.
Defined.

Lemma in_zeros c n : In c (zeros n) -> c = "0"%char.
Proof. unfold zeros. intros H. apply repeat_spec in H. assumption. Qed.

Lemma no_match_without c0 t :
  (c0 = "."%char \/ c0 = "0"%char) -> ~ In c0 t -> no_match t.
Proof.
  intros Hc0. induction t as [|c t IH]; intros Hout; [exact I|].
  split; [|apply IH; intros Hin; apply Hout; now right].
  destruct (match_here (c :: t)) as [[g rest]|] eqn:E; [|reflexivity].
  exfalso. apply match_here_shape in E as (-> & n & -> & _ & _).
  apply Hout. destruct Hc0 as [-> | ->]; [now left|].
  right. apply in_or_app. right. simpl. now left.
Qed.

(** X3. A text without a point, or without a zero, is left as it is. *)
Theorem X3_unchanged_without_point_or_zero (t : str) :
  ~ In "."%char t \/ ~ In "0"%char t -> _normalize_numbers t = t.
Proof.
  intros [H|H]; apply normalize_fixed.
  - apply (no_match_without "."%char); auto.
  - apply (no_match_without "0"%char); auto.
Qed.

Lemma X3_witness : _normalize_numbers (s "add 15 to 7.25") = s "add 15 to 7.25".
Proof.
  apply X3_unchanged_without_point_or_zero. right. simpl.
  intuition discriminate.
Defined.

Lemma erases_refl t : erases t t.
Proof. induction t; constructor; assumption. Qed.

Lemma erases_app a a' b b' : erases a a' -> erases b b' -> erases (a ++ b) (a' ++ b').
Proof.
  intros Ha Hb. induction Ha; simpl; [assumption | |];
    constructor; assumption.
Qed.

Lemma erases_zeros n b b' : erases b b' -> erases (zeros n ++ b) b'.
Proof.
  intros Hb. induction n as [|n IH]; [assumption|].
  apply erases_drop; [now right | exact IH].
Qed.

Lemma erases_length a b : erases a b -> length b <= length a.
Proof. induction 1; simpl; lia. Qed.

Lemma erases_filter a b :
  erases a b ->
  filter (fun c => negb (chr_eqb c "." || chr_eqb c "0")) b
  = filter (fun c => negb (chr_eqb c "." || chr_eqb c "0")) a.
Proof.
  induction 1 as [|c a b _ IH|c a b Hc _ IH]; simpl.
  - reflexivity.
  - now rewrite IH.
  - destruct Hc as [-> | ->]; exact IH.
Qed.

(** X4. [_normalize_numbers] only takes points and zeros out of the text:
    every other character stays, in order, nothing is added, and the result
    is never longer than the text. *)
Theorem X4_only_points_and_zeros_erased (t : str) :
  erases t (_normalize_numbers t)
  /\ length (_normalize_numbers t) <= length t
  /\ filter (fun c => negb (chr_eqb c "." || chr_eqb c "0")) (_normalize_numbers t)
     = filter (fun c => negb (chr_eqb c "." || chr_eqb c "0")) t.
Proof.
  assert (H : erases t (_normalize_numbers t)).
  { induction t as [| c t Hnone IH | c t g rest Hsome IH] using scan_ind.
    - constructor.
    - rewrite normalize_cons, Hnone. now constructor.
    - rewrite normalize_cons, Hsome.
      apply match_here_shape in Hsome as (-> & n & -> & _ & _).
      destruct g as [|g0 g].
      + simpl repl. simpl app at 2.
        apply erases_drop; [now left|]. simpl app. now apply (erases_zeros (S n)).
      + simpl repl. simpl app. apply erases_keep.
        apply (erases_app (g0 :: g) (g0 :: g)); [apply erases_refl|].
        now apply (erases_zeros (S n)). }
  split; [exact H|]. split; [now apply erases_length | now apply erases_filter].
Qed.

(** *** What a match does *)

Lemma ends_in_zero q :
  q <> [] -> forallb (fun c => chr_eqb c "0") q = true ->
  exists q', q = q' ++ ["0"%char].
Proof.
  intros Hne Hz. destruct (exists_last Hne) as (q' & c & ->).
  rewrite forallb_app in Hz. apply andb_prop in Hz as [_ Hc].
  simpl in Hc. rewrite andb_true_r in Hc. apply chr_eqb_eq in Hc. subst c.
  now exists q'.
Qed.

Lemma lazy_spec_group q : forall acc n,
  (forall q', q <> q' ++ ["0"%char]) ->
  lazy_spec acc (q ++ zeros (S n)) false = Some (acc ++ q).
Proof.
  induction q as [|d q IH]; intros acc n Hq.
  - rewrite app_nil_r. simpl app.
    change (zeros (S n)) with ("0"%char :: zeros n). cbn [lazy_spec].
    assert (Hz : zeros_ok ("0"%char :: zeros n) false = true).
    { apply zeros_ok_false_iff. split; [discriminate|].
      apply (zeros_all_zero (S n)). }
    now rewrite Hz.
  - simpl app. cbn [lazy_spec].
    destruct (zeros_ok (d :: q ++ zeros (S n)) false) eqn:Ez.
    + exfalso. apply zeros_ok_false_iff in Ez as [_ Ez].
      change (d :: q ++ zeros (S n)) with ((d :: q) ++ zeros (S n)) in Ez.
      rewrite forallb_app in Ez. apply andb_prop in Ez as [Ez _].
      destruct (ends_in_zero (d :: q)) as (q' & Hq'); [discriminate | assumption|].
      exact (Hq q' Hq').
    + rewrite IH.
      * now rewrite <- app_assoc.
      * intros q' Hq'. apply (Hq (d :: q')). simpl. now rewrite Hq'.
Qed.

Lemma boundary_not_digit r : boundary_follows r -> starts_with_digit r = false.
Proof.
  unfold boundary_follows, starts_with_word. destruct r as [|c r]; [reflexivity|].
  simpl. intros Hw. destruct (isdecimal c) eqn:E; [|reflexivity].
  apply isdecimal_is_word in E. congruence.
Qed.

Lemma zeros_are_digits n : Forall (fun c => isdecimal c = true) (zeros n).
Proof. induction n; constructor; auto. Qed.

(** X2. Trailing zeros of a fraction are stripped.  Let the text hold, after
    a part [p] without a point, a point, digits [q] that do not end in a
    zero, at least one zero, and then the end of the text or a character
    that is not a word character.  Then the zeros go; the point and [q]
    stay when [q] is not empty, and the point goes as well when it is (so a
    number written [.0] disappears).  The rest is normalised on its own. *)
Theorem X2_trailing_zeros_stripped (p q r : str) (n : nat) :
  ~ In "."%char p ->
  Forall (fun d => isdecimal d = true) q ->
  (forall q', q <> q' ++ ["0"%char]) ->
  boundary_follows r ->
  _normalize_numbers (p ++ "."%char :: q ++ zeros (S n) ++ r)
  = p ++ match q with
         | [] => _normalize_numbers r
         | _ :: _ => "."%char :: q ++ _normalize_numbers r
         end.
Proof.
  intros Hp Hq Hlast Hr. rewrite normalize_without_point by assumption.
  f_equal. rewrite normalize_cons, match_here_spec.
  assert (Hd : Forall (fun d => isdecimal d = true) (q ++ zeros (S n))).
  { apply Forall_app. split; [assumption | apply zeros_are_digits]. }
  rewrite app_assoc.
  rewrite take_digits_app, skip_digits_app by auto using boundary_not_digit.
  rewrite Hr, lazy_spec_group by assumption. simpl.
  destruct q; reflexivity.
Qed.

Lemma X2_witness :
  _normalize_numbers (s "is 12.500, ok") = s "is 12.5, ok".
Proof.
  apply (X2_trailing_zeros_stripped (s "is 12") (s "5") (s ", ok") 1).
  - simpl. intuition discriminate.
  - repeat constructor.
  - intros q' Hq'. apply (f_equal (@rev ascii)) in Hq'.
    rewrite rev_app_distr in Hq'. discriminate Hq'.
  - reflexivity.
Defined.

Lemma lazy_spec_word_follows ds : forall acc, lazy_spec acc ds true = None.
Proof.
  induction ds as [|d ds IH]; intros acc; [reflexivity|].
  cbn [lazy_spec zeros_ok]. rewrite andb_false_r. apply IH.
Qed.

(** X5. A fraction that a word character follows directly (a letter, an
    underscore, as in [1.50kg] or [1.0e5]) is not touched: after a part [p]
    without a point, the point and the digits [ds] stay as they are. *)
Theorem X5_fraction_before_word_character_kept (p ds r : str) (c : ascii) :
  ~ In "."%char p ->
  Forall (fun d => isdecimal d = true) ds ->
  isword c = true -> isdecimal c = false ->
  _normalize_numbers (p ++ "."%char :: ds ++ c :: r)
  = p ++ "."%char :: ds ++ _normalize_numbers (c :: r).
Proof.
  intros Hp Hds Hw Hd. rewrite normalize_without_point by assumption.
  f_equal. rewrite normalize_cons, match_here_spec.
  rewrite take_digits_app, skip_digits_app by (simpl; auto).
  unfold starts_with_word. simpl hd_error. unfold is_word_at. rewrite Hw.
  rewrite lazy_spec_word_follows. simpl.
  now rewrite normalize_digits.
Qed.

Lemma X5_witness : _normalize_numbers (s "1.50kg") = s "1.50kg".
Proof.
  apply (X5_fraction_before_word_character_kept (s "1") (s "50") (s "g") "k");
    try reflexivity.
  - simpl. intuition discriminate.
  - repeat constructor.
Defined.

End NormalizeMore.

(** ** Further properties of the class *)

Module TagMore.

Import Re ReFacts NormalizeMore.

(** *** The masked sentence *)

Lemma tagged_from_no_float words : forall k,
  filter is_float (tagged_from k words) = [].
Proof.
  induction words as [|w r IH]; intros k; [reflexivity|].
  cbn [tagged_from]. destruct (is_float w) eqn:Hw; cbn [filter].
  - now rewrite tag_not_float.
  - now rewrite Hw.
Qed.

(** X6. Masking leaves no number in the sentence and moves no other word:
    no word of the masked sentence is accepted by [float], and a word of the
    original sentence that [float] rejects stands at the same place in the
    masked sentence. *)
Theorem X6_masked_sentence_has_no_number sentence equation nt :
  __init__ sentence equation = Ok nt ->
  numeric_words (tagged_sentence nt) = []
  /\ forall p w,
       nth_error (split (original_sentence nt)) p = Some w ->
       is_float w = false ->
       nth_error (split (tagged_sentence nt)) p = Some w.
Proof.
  intros Hnt.
  destruct (init_ok_table _ _ _ Hnt) as (_ & _ & Hos).
  apply InitFacts.init_ok in Hnt. cbv zeta in Hnt.
  destruct Hnt as (_ & _ & _ & Hts & _ & _).
  unfold numeric_words.
  rewrite Hts, <- Hos, InitFacts.split_tagged_sentence. split.
  - apply tagged_from_no_float.
  - intros p w Hp Hw. rewrite (InitFacts.tagged_from_nth _ 0 _ _ Hp), Hw.
    reflexivity.
Qed.

Lemma X6_witness :
  numeric_words (tagged_sentence doctest_instance) = []
  /\ nth_error (split (tagged_sentence doctest_instance)) 3 = Some (s "added").
Proof.
  destruct (X6_masked_sentence_has_no_number doctest_sentence doctest_equation
              doctest_instance eq_refl) as [Hnone Hkept].
  split; [exact Hnone|]. apply Hkept; reflexivity.
Defined.

(** *** The table *)

Lemma table_from_in nums k v :
  In (k, v) (table_from 0 nums) ->
  exists i, k = tag i /\ nth_error nums i = Some v.
Proof.
  intros Hin. apply In_nth_error in Hin as [i Hi].
  exists i. now apply table_entry.
Qed.

(** X7. Every entry of the table of a constructed instance pairs a tag of
    the alphabet, which [float] rejects, with a word of the original
    sentence that [float] accepts. *)
Theorem X7_table_entries sentence equation nt :
  __init__ sentence equation = Ok nt ->
  forall k v,
    In (k, v) (lookup_table nt) ->
    (exists sym, In sym _TAGS /\ k = s "<" ++ sym ++ s ">")
    /\ is_float k = false
    /\ is_float v = true
    /\ In v (split (original_sentence nt)).
Proof.
  intros Hnt k v Hin.
  destruct (init_ok_table _ _ _ Hnt) as (Htab & Hlen & _).
  rewrite Htab in Hin. apply table_from_in in Hin as (i & -> & Hi).
  assert (Hi8 : i < 8).
  { apply Nat.lt_le_trans with (2 := Hlen). apply nth_error_Some. congruence. }
  destruct (tags_nth_error i Hi8) as (sym & Hsym & Htag).
  apply nth_error_In in Hsym, Hi. unfold numeric_words in Hi.
  apply filter_In in Hi as [Hin Hfloat].
  split; [exists sym; auto|]. split; [apply tag_not_float|]. auto.
Qed.

Lemma X7_witness :
  is_float (s "<y>") = false /\ is_float (s "1.5") = true.
Proof.
  destruct (X7_table_entries doctest_sentence doctest_equation doctest_instance
              eq_refl (s "<y>") (s "1.5")) as (_ & Hk & Hv & _).
  - simpl. auto.
  - split; [exact Hk | exact Hv].
Defined.

(** X8. The equation has no part in masking the sentence: for one sentence
    and two equations, construction succeeds for both or raises for both,
    and the original sentence, the masked sentence and the table are the
    same. *)
Theorem X8_sentence_masked_whatever_the_equation sentence equation equation' :
  match __init__ sentence equation, __init__ sentence equation' with
  | Ok nt, Ok nt' =>
      original_sentence nt = original_sentence nt'
      /\ tagged_sentence nt = tagged_sentence nt'
      /\ lookup_table nt = lookup_table nt'
  | Raise e, Raise e' => e = e'
  | _, _ => False
  end.
Proof.
  rewrite !InitFacts.init_spec. cbv zeta.
  destruct (length (numeric_words (_normalize_numbers sentence)) <=? 8);
    simpl; auto.
Qed.

(** X9. Constructing again from the originals of an instance gives the
    same instance. *)
Theorem X9_construct_again_from_originals sentence equation nt :
  __init__ sentence equation = Ok nt ->
  __init__ (original_sentence nt) (original_equation nt) = Ok nt.
Proof.
  intros Hnt. pose proof Hnt as Hspec.
  apply InitFacts.init_ok in Hnt. cbv zeta in Hnt.
  destruct Hnt as (_ & Hos & Hoe & _ & _ & _).
  rewrite Hos, Hoe, InitFacts.init_spec. cbv zeta.
  rewrite !(normalize_fixed _ (normalize_no_match _)).
  rewrite InitFacts.init_spec in Hspec. exact Hspec.
Qed.

Lemma X9_witness :
  __init__ (original_sentence doctest_instance)
           (original_equation doctest_instance) = Ok doctest_instance.
Proof.
  apply (X9_construct_again_from_originals doctest_sentence doctest_equation).
  reflexivity.
Defined.

(** *** Masking the masked sentence *)

Lemma split_from_word_place t : forall cur w,
  In w (split_from cur t) ->
  exists a b,
    cur ++ t = a ++ w ++ b
    /\ (b = [] \/ exists c b', b = c :: b' /\ isspace c = true).
Proof.
  induction t as [|c t IH]; intros cur w Hin.
  - destruct cur as [|c0 cur]; simpl in Hin; [contradiction|].
    destruct Hin as [<-|[]]. exists [], []. rewrite !app_nil_r. auto.
  - cbn [split_from] in Hin. destruct (isspace c) eqn:Hc.
    + assert (Hcases : w = cur /\ cur <> [] \/ In w (split_from [] t)).
      { destruct cur as [|c0 cur]; simpl in Hin; [now right|].
        destruct Hin as [<-|Hin]; [left; split; [reflexivity | discriminate]
                                  | now right]. }
      destruct Hcases as [[-> _]|Hin'].
      * exists [], (c :: t). split; [reflexivity|]. right. eauto.
      * apply IH in Hin' as (a & b & Heq & Hb). simpl in Heq.
        exists (cur ++ c :: a), b. split; [|exact Hb].
        rewrite Heq, <- app_assoc. reflexivity.
    + apply IH in Hin as (a & b & Heq & Hb).
      exists a, b. split; [|exact Hb]. rewrite <- Heq, <- app_assoc. reflexivity.
Qed.

Lemma match_here_none_before_space x a c b :
  isspace c = true ->
  match_here (x :: a ++ c :: b) = None <-> match_here (x :: a) = None.
Proof.
  intros Hc. rewrite match_here_before_space by assumption.
  destruct (match_here (x :: a)); simpl; split; intros H;
    first [discriminate H | reflexivity].
Qed.

Lemma no_match_before_space (w : str) c b :
  isspace c = true -> no_match (w ++ c :: b) -> no_match w.
Proof.
  intros Hc. induction w as [|x w IH]; intros H; [exact I|].
  destruct H as [Hx H]. split; [|now apply IH].
  now apply (match_here_none_before_space x w c b Hc).
Qed.

Lemma no_match_app_space (w : str) c b :
  isspace c = true -> no_match w -> no_match b -> no_match (w ++ c :: b).
Proof.
  intros Hc Hw Hb. induction w as [|x w IH].
  - split; [|exact Hb]. apply match_here_not_point. now apply space_not_point.
  - destruct Hw as [Hx Hw]. split; [|now apply IH].
    now apply (match_here_none_before_space x w c b Hc).
Qed.

(** The words of a text without a match hold no match. *)
Lemma no_match_words t w : no_match t -> In w (split t) -> no_match w.
Proof.
  intros Ht Hin. apply split_from_word_place in Hin as (a & b & Heq & Hb).
  simpl in Heq. rewrite Heq in Ht. apply no_match_suffix in Ht.
  destruct Hb as [-> | (c & b' & -> & Hc)].
  - now rewrite app_nil_r in Ht.
  - now apply no_match_before_space with c b'.
Qed.

Lemma no_match_join ws : (forall w, In w ws -> no_match w) -> no_match (join ws).
Proof.
  induction ws as [|w ws IH]; intros Hws; [exact I|].
  destruct ws as [|w' ws]; [apply Hws; now left|].
  change (join (w :: w' :: ws)) with (w ++ " "%char :: join (w' :: ws)).
  apply no_match_app_space; [reflexivity | apply Hws; now left|].
  apply IH. intros x Hx. apply Hws. now right.
Qed.

Lemma tag_without_point i : ~ In "."%char (tag i).
Proof.
  do 8 (destruct i as [|i]; [simpl; intuition discriminate|]).
  unfold tag. rewrite nth_overflow by (simpl; lia). simpl. intuition discriminate.
Qed.

Lemma tagged_from_in words : forall k w,
  In w (tagged_from k words) -> (exists i, w = tag i) \/ In w words.
Proof.
  induction words as [|w0 r IH]; intros k w Hin; [contradiction|].
  cbn [tagged_from] in Hin. destruct (is_float w0).
  - destruct Hin as [<-|Hin]; [left; eauto|].
    destruct (IH _ _ Hin) as [H|H]; [now left | right; now right].
  - destruct Hin as [<-|Hin]; [right; now left|].
    destruct (IH _ _ Hin) as [H|H]; [now left | right; now right].
Qed.

Lemma tagged_sentence_fixed t :
  no_match t ->
  _normalize_numbers (join (tagged_from 0 (split t)))
  = join (tagged_from 0 (split t)).
Proof.
  intros Ht. apply normalize_fixed, no_match_join.
  intros w Hin. apply tagged_from_in in Hin as [[i ->]|Hin].
  - apply (no_match_without "."%char); [now left | apply tag_without_point].
  - now apply no_match_words with t.
Qed.

(** X10. Masking is idempotent: constructing an instance from the masked
    sentence of an instance (with any equation) succeeds, with the masked
    sentence as original and as masked sentence, and an empty table. *)
Theorem X10_masking_the_masked_sentence sentence equation nt equation' :
  __init__ sentence equation = Ok nt ->
  exists nt',
    __init__ (tagged_sentence nt) equation' = Ok nt'
    /\ original_sentence nt' = tagged_sentence nt
    /\ tagged_sentence nt' = tagged_sentence nt
    /\ lookup_table nt' = [].
Proof.
  intros Hnt. apply InitFacts.init_ok in Hnt. cbv zeta in Hnt.
  destruct Hnt as (_ & _ & _ & Hts & _ & _).
  rewrite InitFacts.init_spec. cbv zeta.
  rewrite Hts, tagged_sentence_fixed by apply normalize_no_match.
  unfold numeric_words.
  rewrite InitFacts.split_tagged_sentence, tagged_from_no_float.
  eexists. split; [reflexivity|]. cbn.
  rewrite (InitFacts.tagged_from_no_numeric
             (tagged_from 0 (split (_normalize_numbers sentence))) 0)
    by apply tagged_from_no_float.
  auto.
Qed.

Lemma X10_witness :
  exists nt',
    __init__ (tagged_sentence doctest_instance) (s "x = 1") = Ok nt'
    /\ original_sentence nt' = tagged_sentence doctest_instance
    /\ tagged_sentence nt' = tagged_sentence doctest_instance
    /\ lookup_table nt' = [].
Proof.
  apply (X10_masking_the_masked_sentence doctest_sentence doctest_equation).
  reflexivity.
Defined.

End TagMore.

(** ** Further properties of unmasking and of the masked equation *)

Module UnmaskMore.

Import InitFacts AdjustFacts UnmaskFacts TagLoop DictFacts.

Lemma table_get_in nums : forall k w v,
  get (table_from k nums) w = Some v -> In v nums.
Proof.
  induction nums as [|n nums IH]; intros k w v; [discriminate|].
  rewrite table_from_cons. cbn [get].
  destruct (str_eqb (tag k) w); [intros [= <-]; now left|].
  intros H. right. now apply IH with (S k) w.
Qed.

Lemma key_is_tag nums k :
  In k (keys (table_from 0 nums)) -> exists i, k = tag i.
Proof.
  rewrite table_from_keys. intros Hin.
  apply in_map_iff in Hin as (i & <- & _). now exists i.
Qed.

Lemma float_is_no_key nums v :
  is_float v = true -> get (table_from 0 nums) v = None.
Proof.
  intros Hv. apply get_none. intros Hin.
  apply key_is_tag in Hin as [i ->]. rewrite tag_not_float in Hv. discriminate.
Qed.

Lemma unmask_one_twice text w :
  unmask_one (table_from 0 (numeric_words text))
    (unmask_one (table_from 0 (numeric_words text)) w)
  = unmask_one (table_from 0 (numeric_words text)) w.
Proof.
  unfold unmask_one at 2 3.
  destruct (get (table_from 0 (numeric_words text)) w) as [v|] eqn:Hw.
  - apply table_get_in in Hw. unfold numeric_words in Hw.
    apply filter_In in Hw as [_ Hv].
    unfold unmask_one. now rewrite float_is_no_key.
  - unfold unmask_one. now rewrite Hw.
Qed.

(** X11. Unmasking is idempotent on a constructed instance: unmasking the
    result of [unmask_sentence] once more changes nothing. *)
Theorem X11_unmask_twice sentence equation nt text :
  __init__ sentence equation = Ok nt ->
  unmask_sentence nt (unmask_sentence nt text) = unmask_sentence nt text.
Proof.
  intros Hnt. destruct (init_ok_table _ _ _ Hnt) as (Htab & _ & _).
  rewrite !unmask_sentence_spec, Htab.
  rewrite split_join
    by (apply map_unmask_words_ok;
        [apply numeric_words_ok | apply split_words_ok]).
  rewrite map_map. f_equal. apply map_ext. intros w. apply unmask_one_twice.
Qed.

Lemma X11_witness :
  unmask_sentence doctest_instance
    (unmask_sentence doctest_instance (s "<y>  plus <x>"))
  = unmask_sentence doctest_instance (s "<y>  plus <x>").
Proof.
  apply (X11_unmask_twice doctest_sentence doctest_equation). reflexivity.
Defined.

(** X12. [unmask_sentence] works place by place on a constructed instance:
    the result has the words of the text, with each word that is a key of
    the table replaced by its value and every other word kept. *)
Theorem X12_unmask_place_by_place sentence equation nt text j w :
  __init__ sentence equation = Ok nt ->
  nth_error (split text) j = Some w ->
  nth_error (split (unmask_sentence nt text)) j
  = Some (match get (lookup_table nt) w with
          | Some v => v
          | None => w
          end).
Proof.
  intros Hnt Hj. destruct (init_ok_table _ _ _ Hnt) as (Htab & _ & _).
  rewrite unmask_sentence_spec, Htab.
  rewrite split_join
    by (apply map_unmask_words_ok;
        [apply numeric_words_ok | apply split_words_ok]).
  now apply (map_nth_error
               (unmask_one (table_from 0 (numeric_words (original_sentence nt))))).
Qed.

Lemma X12_witness :
  nth_error (split (unmask_sentence doctest_instance (s "so  <y> it is"))) 1
  = Some (s "1.5").
Proof.
  apply (X12_unmask_place_by_place doctest_sentence doctest_equation
           doctest_instance (s "so  <y> it is") 1 (s "<y>")); reflexivity.
Defined.

(** *** The masked equation *)

Lemma invert_table_back nums w t :
  length nums <= 8 ->
  get (invert (table_from 0 nums)) w = Some t ->
  get (table_from 0 nums) t = Some w /\ In w nums.
Proof.
  intros Hlen Hget. apply invert_table_some in Hget as (i & -> & Hi & _).
  split; [|now apply nth_error_In with i].
  rewrite <- Hi. apply (table_from_get nums 0 i); [simpl; lia|].
  apply nth_error_Some. congruence.
Qed.

Lemma unmask_adjusted T ew : forall ad,
  NoDup (keys ad) ->
  (forall w t, get ad w = Some t -> get T t = Some w) ->
  (forall w, In w ew -> ~ In w (keys T)) ->
  map (unmask_one T) (adjusted ad ew) = ew.
Proof.
  induction ew as [|w r IH]; intros ad Hnd Hback Hfree; [reflexivity|].
  rewrite adjusted_cons. cbn [map]. f_equal.
  - unfold unmask_one at 2. destruct (get ad w) as [t|] eqn:E.
    + unfold unmask_one. now rewrite (Hback w t E).
    + apply unmask_one_absent, Hfree. now left.
  - apply IH.
    + now apply after_word_nodup.
    + intros w' t. rewrite get_after_word by assumption.
      destruct (str_eqb w w'); [discriminate | apply Hback].
    + intros w' Hin. apply Hfree. now right.
Qed.

(** X13. Round trip for the equation: when no word of the original
    equation is itself a key of the table, unmasking the masked equation
    gives the single-space join of the words of the original equation. *)
Theorem X13_unmask_masked_equation sentence equation nt :
  __init__ sentence equation = Ok nt ->
  (forall w, In w (split (original_equation nt)) ->
             ~ In w (keys (lookup_table nt))) ->
  unmask_sentence nt (snd (get_masked nt))
  = join (split (snd (get_originals nt))).
Proof.
  intros Hnt Hfree.
  destruct (init_ok_table _ _ _ Hnt) as (Htab & Hlen & _).
  destruct (masked_equation_words _ _ _ Hnt) as (Hsplit & _ & _).
  unfold get_masked, get_originals. cbn [snd].
  rewrite unmask_sentence_spec, Hsplit. f_equal.
  apply unmask_adjusted.
  - apply invert_nodup.
  - intros w t Hget. rewrite Htab.
    now apply (invert_table_back _ w t Hlen).
  - exact Hfree.
Qed.

Lemma X13_witness :
  unmask_sentence doctest_instance (snd (get_masked doctest_instance))
  = join (split (snd (get_originals doctest_instance))).
Proof.
  apply (X13_unmask_masked_equation doctest_sentence doctest_equation).
  - reflexivity.
  - no_word_is_a_key.
Defined.

(** X14. A word of the masked equation is the word of the original
    equation at that place, or a key of the table whose value is that word,
    which is then a numeric word of the sentence; a word that [float]
    rejects (an operator, a variable) is always kept. *)
Theorem X14_masked_equation_word sentence equation nt j w :
  __init__ sentence equation = Ok nt ->
  nth_error (split (original_equation nt)) j = Some w ->
  (nth_error (split (tagged_equation nt)) j = Some w
   \/ exists t,
        nth_error (split (tagged_equation nt)) j = Some t
        /\ get (lookup_table nt) t = Some w
        /\ In w (numeric_words (original_sentence nt)))
  /\ (is_float w = false ->
      nth_error (split (tagged_equation nt)) j = Some w).
Proof.
  intros Hnt Hj.
  destruct (init_ok_table _ _ _ Hnt) as (Htab & Hlen & _).
  destruct (masked_equation_words _ _ _ Hnt) as (Hsplit & _ & Hnth).
  rewrite Hsplit, (Hnth j w Hj), Htab.
  destruct (existsb (str_eqb w) _); [split; auto|].
  unfold unmask_one.
  destruct (get (invert (table_from 0 (numeric_words (original_sentence nt)))) w)
    as [t|] eqn:Hget; [|split; auto].
  apply invert_table_back in Hget as [Hback Hin]; [|assumption].
  split.
  - right. exists t. auto.
  - intros Hw. unfold numeric_words in Hin. apply filter_In in Hin as [_ Hin].
    congruence.
Qed.

Lemma X14_witness :
  nth_error (split (tagged_equation doctest_instance)) 3 = Some (s "+").
Proof.
  apply (proj2 (X14_masked_equation_word doctest_sentence doctest_equation
                  doctest_instance 3 (s "+") eq_refl eq_refl)).
  reflexivity.
Defined.

Lemma earlier_place (l : list str) : forall j1 j2 w,
  j1 < j2 -> nth_error l j1 = Some w -> In w (firstn j2 l).
Proof.
  induction l as [|h r IH]; intros j1 j2 w Hlt Hj1; [now destruct j1|].
  destruct j2 as [|j2]; [lia|]. destruct j1 as [|j1]; simpl in *.
  - left. congruence.
  - right. apply (IH j1); [lia | assumption].
Qed.

Lemma at_most_once (l : list str) k :
  (forall j1 j2, nth_error l j1 = Some k -> nth_error l j2 = Some k -> j1 = j2) ->
  occurrences k l <= 1.
Proof.
  induction l as [|x r IH]; intros Huniq; [unfold occurrences; simpl; lia|].
  rewrite occurrences_cons. destruct (str_eqb x k) eqn:E.
  - apply str_eqb_eq in E. subst x.
    assert (Hout : ~ In k r).
    { intros Hin. apply In_nth_error in Hin as [j Hj].
      specialize (Huniq 0 (S j) eq_refl Hj). discriminate. }
    unfold occurrences. rewrite (proj1 (count_occ_not_In str_dec r k) Hout). lia.
  - simpl. apply IH. intros j1 j2 H1 H2.
    specialize (Huniq (S j1) (S j2) H1 H2). lia.
Qed.

(** X15. A tag is used at most once in the equation: a key of the table
    that is no word of the original equation occurs at most once among the
    words of the masked equation. *)
Theorem X15_tag_at_most_once_in_equation sentence equation nt k :
  __init__ sentence equation = Ok nt ->
  In k (keys (lookup_table nt)) ->
  ~ In k (split (original_equation nt)) ->
  occurrences k (split (tagged_equation nt)) <= 1.
Proof.
  intros Hnt Hkey Hfresh.
  destruct (init_ok_table _ _ _ Hnt) as (Htab & Hlen & _).
  destruct (masked_equation_words _ _ _ Hnt) as (Hsplit & _ & Hnth).
  rewrite Hsplit. apply at_most_once.
  set (ew := split (original_equation nt)) in *.
  set (ad := invert (table_from 0 (numeric_words (original_sentence nt)))) in *.
  assert (Hplace : forall j, nth_error (adjusted ad ew) j = Some k ->
            exists w, nth_error ew j = Some w
                      /\ ~ In w (firstn j ew)
                      /\ get ad w = Some k).
  { intros j Hj.
    assert (Hlt : j < length ew).
    { rewrite <- (adjusted_length ew ad). apply nth_error_Some. congruence. }
    destruct (nth_error ew j) as [w|] eqn:Hw;
      [|apply nth_error_None in Hw; lia].
    exists w. split; [reflexivity|].
    rewrite (Hnth j w Hw) in Hj. injection Hj as Hj.
    assert (Hne : w <> k).
    { intros ->. apply Hfresh. now apply nth_error_In with j. }
    destruct (existsb (str_eqb w) (firstn j ew)) eqn:Hseen; [contradiction|].
    split.
    - intros Hin. apply existsb_str_eqb in Hin. congruence.
    - unfold unmask_one in Hj. destruct (get ad w); congruence. }
  intros j1 j2 H1 H2.
  apply Hplace in H1 as (w1 & Hw1 & Hfirst1 & Hget1).
  apply Hplace in H2 as (w2 & Hw2 & Hfirst2 & Hget2).
  assert (w1 = w2).
  { apply invert_table_back in Hget1 as [Hb1 _]; [|assumption].
    apply invert_table_back in Hget2 as [Hb2 _]; [|assumption].
    congruence. }
  subst w2.
  destruct (Nat.lt_trichotomy j1 j2) as [Hlt|[Heq|Hgt]]; [|assumption|].
  - exfalso. apply Hfirst2. now apply earlier_place with j1.
  - exfalso. apply Hfirst1. now apply earlier_place with j2.
Qed.

Lemma X15_witness :
  occurrences (s "<y>") (split (tagged_equation repeat_instance)) <= 1.
Proof.
  apply (X15_tag_at_most_once_in_equation repeat_sentence repeat_equation).
  - reflexivity.
  - simpl. auto.
  - simpl. intuition discriminate.
Defined.

End UnmaskMore.

(** ** [__repr__] *)

Module ReprMore.

Import Repr.

Example repr_doctest_instance :
  __repr__ doctest_instance
  = s "NumberTag('What is 123 add', 'x = 123 + 1.5', {'<x>': '123', '<y>': '1.5'})".
Proof. reflexivity. Qed.

Example repr_str_quotes :
  map repr_str [s "it's"; s "a\b"; [squote; dquote]; [ascii_of_N 10; ascii_of_N 233; ascii_of_N 160]]
  = [dquote :: s "it's" ++ [dquote];
     s "'a\\b'";
     squote :: backslash :: squote :: dquote :: [squote];
     squote :: s "\n" ++ [ascii_of_N 233] ++ s "\xa0" ++ [squote]].
Proof. reflexivity. Qed.

Lemma escape_printable_squote c :
  forallb isprintable (escape squote c) = true.
Proof. by_cases_on_char c. Qed.

Lemma escape_printable_dquote c :
  forallb isprintable (escape dquote c) = true.
Proof. by_cases_on_char c. Qed.

Lemma quote_for_cases t : quote_for t = squote \/ quote_for t = dquote.
Proof. unfold quote_for. destruct (_ && _); auto. Qed.

Lemma flat_map_printable q t :
  (forall c, forallb isprintable (escape q c) = true) ->
  forallb isprintable (flat_map (escape q) t) = true.
Proof.
  intros Hq. induction t as [|c t IH]; [reflexivity|].
  simpl. now rewrite forallb_app, Hq, IH.
Qed.

Lemma repr_str_printable t : forallb isprintable (repr_str t) = true.
Proof.
  unfold repr_str. cbn [forallb]. rewrite forallb_app. cbn [forallb].
  destruct (quote_for_cases t) as [-> | ->].
  - now rewrite flat_map_printable by apply escape_printable_squote.
  - now rewrite flat_map_printable by apply escape_printable_dquote.
Qed.

Lemma join_with_printable sep items :
  forallb isprintable sep = true ->
  (forall x, In x items -> forallb isprintable x = true) ->
  forallb isprintable (join_with sep items) = true.
Proof.
  intros Hsep. induction items as [|x items IH]; intros Hitems; [reflexivity|].
  destruct items as [|y items]; [apply Hitems; now left|].
  change (join_with sep (x :: y :: items))
    with (x ++ sep ++ join_with sep (y :: items)).
  rewrite !forallb_app, Hsep, (Hitems x) by now left.
  rewrite IH; [reflexivity|]. intros z Hz. apply Hitems. now right.
Qed.

Lemma repr_dict_printable d : forallb isprintable (repr_dict d) = true.
Proof.
  unfold repr_dict. rewrite !forallb_app.
  rewrite join_with_printable; [reflexivity | reflexivity|].
  intros x Hx. apply in_map_iff in Hx as (kv & <- & _).
  unfold repr_item. now rewrite !forallb_app, !repr_str_printable.
Qed.

(** X16. The text [__repr__] gives is one line of printable characters
    (no newline, no control character), whatever the instance holds, and it
    shows the sentence by its first 15 characters only: two instances that
    agree on them, on the original equation and on the table have the same
    text. *)
Theorem X16_repr_is_one_printable_line (self : NumberTag.t) :
  forallb isprintable (__repr__ self) = true
  /\ forall other,
       firstn 15 (NumberTag.original_sentence self)
       = firstn 15 (NumberTag.original_sentence other) ->
       NumberTag.original_equation self = NumberTag.original_equation other ->
       NumberTag.lookup_table self = NumberTag.lookup_table other ->
       __repr__ self = __repr__ other.
Proof.
  split.
  - unfold __repr__. rewrite !forallb_app.
    now rewrite !repr_str_printable, repr_dict_printable.
  - intros other Hpreview Hequation Htable. unfold __repr__.
    now rewrite Hpreview, Hequation, Htable.
Qed.

End ReprMore.

(** ** Edge cases and the table as a lookup *)

Module EdgeMore.

Import InitFacts TagLoop ReFacts NormalizeMore UnmaskFacts.

Lemma split_whitespace_only t :
  Forall (fun c => isspace c = true) t -> split t = [].
Proof.
  unfold split. induction 1 as [|c t Hc _ IH]; [reflexivity|].
  simpl. now rewrite Hc.
Qed.

Lemma whitespace_without_point t :
  Forall (fun c => isspace c = true) t -> ~ In "."%char t.
Proof.
  intros Ht Hin. rewrite Forall_forall in Ht. specialize (Ht _ Hin).
  discriminate Ht.
Qed.

(** X17. Empty and blank input: for a sentence that holds nothing but
    whitespace (the empty sentence too) construction succeeds, the original
    sentence is the sentence itself, the masked sentence is empty, the
    table is empty, and the masked equation is the single-space join of the
    words of the original equation; unmasking a text that holds nothing but
    whitespace gives the empty text, for any instance. *)
Theorem X17_blank_input sentence equation self text :
  Forall (fun c => isspace c = true) sentence ->
  Forall (fun c => isspace c = true) text ->
  (exists nt,
     __init__ sentence equation = Ok nt
     /\ original_sentence nt = sentence
     /\ tagged_sentence nt = []
     /\ lookup_table nt = []
     /\ tagged_equation nt = join (split (original_equation nt)))
  /\ unmask_sentence self text = [].
Proof.
  intros Hs Ht. split.
  - rewrite init_spec. cbv zeta.
    assert (Hfix : _normalize_numbers sentence = sentence).
    { apply normalize_fixed, (no_match_without "."%char); [now left|].
      now apply whitespace_without_point. }
    unfold numeric_words. rewrite Hfix, (split_whitespace_only sentence Hs).
    eexists. split; [reflexivity|]. cbn.
    repeat split. f_equal. apply adjusted_absent. reflexivity.
  - rewrite unmask_sentence_spec. now rewrite (split_whitespace_only text Ht).
Qed.

Lemma X17_witness :
  (exists nt,
     __init__ (s "   ") (s "x = 1") = Ok nt
     /\ original_sentence nt = s "   "
     /\ tagged_sentence nt = []
     /\ lookup_table nt = []
     /\ tagged_equation nt = join (split (original_equation nt)))
  /\ unmask_sentence doctest_instance [] = [].
Proof.
  apply X17_blank_input; repeat constructor.
Defined.

(** X18. Looking a tag up gives the number it replaced: for a numeric word
    [w] at place [p] of the original sentence, the word at place [p] of the
    masked sentence is a key of the table and its value is [w]. *)
Theorem X18_tag_lookup_gives_number sentence equation nt p w :
  __init__ sentence equation = Ok nt ->
  nth_error (split (original_sentence nt)) p = Some w ->
  is_float w = true ->
  exists t,
    nth_error (split (tagged_sentence nt)) p = Some t
    /\ get (lookup_table nt) t = Some w.
Proof.
  intros Hnt Hp Hw.
  destruct (init_ok_table _ _ _ Hnt) as (Htab & Hlen & Hos).
  apply init_ok in Hnt. cbv zeta in Hnt.
  destruct Hnt as (_ & _ & _ & Hts & _ & _).
  rewrite Hts, <- Hos, split_tagged_sentence, Htab.
  rewrite (tagged_from_nth _ 0 _ _ Hp), Hw.
  eexists. split; [reflexivity|].
  pose proof (filter_rank _ _ _ Hp Hw) as Hrank.
  rewrite (table_from_get (numeric_words (original_sentence nt)) 0); auto.
  apply nth_error_Some. unfold numeric_words. congruence.
Qed.

Lemma X18_witness :
  exists t,
    nth_error (split (tagged_sentence doctest_instance)) 2 = Some t
    /\ get (lookup_table doctest_instance) t = Some (s "123").
Proof.
  apply (X18_tag_lookup_gives_number doctest_sentence doctest_equation
           doctest_instance 2 (s "123")); reflexivity.
Defined.

End EdgeMore.
